(** * The Page module (src/modules/page/page.js)

    A shallow embedding of the Page module of the portfolio site: the two
    handler stores, the module load handler, the [hashchange] listener,
    [page_block], [page_setPageElement] and the functions below it.

    The state of the page is a record [World]: the module's globals, the
    stores of the other modules it registers with, the strict errors reported
    so far, the contents of the elements, and the effects started.

    The module is written in callback style.  A function that takes a
    continuation is embedded as a program tree [Prog].  A program changes the
    [World], and where page.js hands a callback to a collaborator (a page
    handler, the template loader, jQuery's ajax, the Block module, a page load
    handler of another module) the program leaves a pending call.  The
    collaborator answers after the caller has returned to the event loop
    ([deliver]), as in the spec's concurrency model; in page.js every such
    call is the last statement of its function.

    Closures that page.js stores ([PAGE_LOAD_HANDLERS], [APP_LOAD_HANDLERS])
    are kept as data and applied by [apply_reaction] and
    [apply_app_handler]. *)

From stdpp Require Import gmap strings list.

(** ** JavaScript values held by the Page Handler store *)

Inductive value : Type :=
| VUndefined
| VNull
| VBoolean (b : bool)
| VNumber (n : Z)
| VString (s : string)
| VFunction (f : nat)
| VObject (o : nat).

(** ToBoolean, as used by [if (x)], [x ? a : b] and [x || y]. *)
Definition truthy (v : value) : bool :=
  match v with
  | VUndefined | VNull => false
  | VBoolean b => b
  | VNumber n => negb (n =? 0)%Z
  | VString s => negb (String.eqb s "")
  | VFunction _ | VObject _ => true
  end.

(** jQuery's [$.type]. *)
Definition jq_type (v : value) : string :=
  match v with
  | VUndefined => "undefined"
  | VNull => "null"
  | VBoolean _ => "boolean"
  | VNumber _ => "number"
  | VString _ => "string"
  | VFunction _ => "function"
  | VObject _ => "object"
  end.

(** Page IDs travel as strings that may be absent ([undefined] or [null]). *)
Definition blank (id : option string) : bool :=
  match id with
  | Some s => String.eqb s ""
  | None => true
  end.

(** [a || b] on possibly absent strings. *)
Definition js_or (a b : option string) : option string :=
  if blank a then b else a.

(** An Error object, known by its message. *)
Record Error : Type := mkError { message : string }.

(** The double quote character of the module's messages. *)
Definition dq : string := String (Ascii.ascii_of_nat 34) EmptyString.

(** ** Elements *)

#[warnings="-register-all"] Inductive node : Type :=
| Text (s : string)
| Element (tag : string) (classes : list string) (children : list node).

(** jQuery's [.text ()]. *)
Fixpoint text (n : node) : string :=
  match n with
  | Text s => s
  | Element _ _ children =>
      (fix texts (l : list node) : string :=
         match l with
         | [] => EmptyString
         | c :: l' => text c +:+ texts l'
         end) children
  end.

Fixpoint texts (l : list node) : string :=
  match l with
  | [] => EmptyString
  | c :: l' => text c +:+ texts l'
  end.

Definition has_class (class : string) (n : node) : bool :=
  match n with
  | Text _ => false
  | Element _ classes _ => existsb (String.eqb class) classes
  end.

(** [$('.' + class, n).replaceWith (content)]: every descendant of [n] that
    carries the class is replaced by a text node. *)
Fixpoint replaceWith (class content : string) (n : node) : node :=
  match n with
  | Text s => Text s
  | Element tag classes children =>
      Element tag classes
        ((fix each (l : list node) : list node :=
            match l with
            | [] => []
            | c :: l' =>
                (if has_class class c then Text content
                 else replaceWith class content c) :: each l'
            end) children)
  end.


(** [$(parent + ' > ' + child, n)]: the descendants of [n] named [child]
    whose parent is named [parent], in document order. *)
Fixpoint select_child (parent child : string) (n : node) : list node :=
  match n with
  | Text _ => []
  | Element tag _ children =>
      (fix each (l : list node) : list node :=
         match l with
         | [] => []
         | c :: l' =>
             (match c with
              | Element ctag _ _ =>
                  if String.eqb tag parent && String.eqb ctag child
                  then [c] else []
              | Text _ => []
              end) ++ select_child parent child c ++ each l'
         end) children
  end.

(** Is [s] a prefix of [t]; does [t] include [s]? *)
Fixpoint starts_with (s t : string) : bool :=
  match s, t with
  | EmptyString, _ => true
  | String a s', String b t' => Ascii.eqb a b && starts_with s' t'
  | String _ _, EmptyString => false
  end.

Fixpoint includes (s t : string) : bool :=
  starts_with s t ||
  match t with
  | EmptyString => false
  | String _ t' => includes s t'
  end.

(** ** The state of the page *)

(** Block Expansion Contexts: the element being expanded and what
    [context.getId ()] returns. *)
Record block_Context : Type := mkContext {
  element : nat;
  getId : option string
}.

Record Settings : Type := mkSettings {
  default_page_id : string;
  error_page_template : string
}.

(** The functions stored in [PAGE_LOAD_HANDLERS]: the two closures page.js
    pushes, and functions of other modules. *)
Inductive reaction : Type :=
| ExpandDocumentBlocksHandler
| PageBlockHandler (context : block_Context)
| ForeignHandler (n : nat).

(** What [strictError] has been given. *)
Inductive report : Type :=
| ReportError (e : Error)
| ReportText (s : string).

(** Visual effects started on the page. *)
Inductive effect : Type :=
| FadeOut (selector : string) (duration : Z)
| FadeIn (selector : string) (duration : Z)
| AnimateScrollTo (fragmentId : string).

(** The function registered in [APP_LOAD_HANDLERS]; it holds the settings its
    closure captured. *)
Inductive app_handler : Type :=
| PageAppLoadHandler (settings : option Settings).

Inductive block_handler : Type :=
| page_block_handler.

(** What a call of [Array.prototype.push] with [Array.prototype] itself as
    receiver leaves in [Array.prototype]. *)
Inductive pushed : Type :=
| PushedStoreArray
| PushedArray (handlers : list reaction).

(** What a collaborator passes to the callback it was given: an error (or
    [null]) and an element (or nothing).  For jQuery's ajax, [r_error] holds
    the error text handed to the [error] callback and [r_value] the document
    handed to [success]. *)
Record response : Type := mkResponse {
  r_error : option Error;
  r_value : option node
}.

(** The join cell of one [execute]: how many handlers it started, how many
    have called back, and the errors they called back with. *)
Record join_cell : Type := mkJoin {
  expected : nat;
  completed : nat;
  joined : list Error
}.

(** The page.  [page_HANDLERS] is the object [_handlers] of the Page Handler
    store, by its own properties: page types are taken not to name a property
    that every object inherits.  [dom] gives the children of the elements the
    module is handed,
    [element_ids] the IDs that [$('#' + id)] finds, [location] the URL that
    [new URI ()] reads, and [passed] what the continuations of the module's
    callers have been passed. *)
Record World : Type := mkWorld {
  page_SETTINGS : option Settings;
  page_HANDLERS : gmap string value;
  PAGE_LOAD_HANDLERS : list reaction;
  block_HANDLERS : list (string * block_handler);
  APP_LOAD_HANDLERS : list app_handler;
  Array_prototype : list pushed;
  strict_errors : list report;
  dom : gmap nat (list node);
  element_ids : list string;
  location : string;
  effects : list effect;
  joins : list join_cell;
  passed : list response
}.

Definition set_page_SETTINGS (s : option Settings) (w : World) : World :=
  mkWorld s (page_HANDLERS w) (PAGE_LOAD_HANDLERS w) (block_HANDLERS w)
    (APP_LOAD_HANDLERS w) (Array_prototype w) (strict_errors w) (dom w)
    (element_ids w) (location w) (effects w) (joins w) (passed w).

Definition set_page_HANDLERS (h : gmap string value) (w : World) : World :=
  mkWorld (page_SETTINGS w) h (PAGE_LOAD_HANDLERS w) (block_HANDLERS w)
    (APP_LOAD_HANDLERS w) (Array_prototype w) (strict_errors w) (dom w)
    (element_ids w) (location w) (effects w) (joins w) (passed w).

Definition set_PAGE_LOAD_HANDLERS (l : list reaction) (w : World) : World :=
  mkWorld (page_SETTINGS w) (page_HANDLERS w) l (block_HANDLERS w)
    (APP_LOAD_HANDLERS w) (Array_prototype w) (strict_errors w) (dom w)
    (element_ids w) (location w) (effects w) (joins w) (passed w).

Definition set_block_HANDLERS (l : list (string * block_handler)) (w : World)
  : World :=
  mkWorld (page_SETTINGS w) (page_HANDLERS w) (PAGE_LOAD_HANDLERS w) l
    (APP_LOAD_HANDLERS w) (Array_prototype w) (strict_errors w) (dom w)
    (element_ids w) (location w) (effects w) (joins w) (passed w).

Definition set_APP_LOAD_HANDLERS (l : list app_handler) (w : World) : World :=
  mkWorld (page_SETTINGS w) (page_HANDLERS w) (PAGE_LOAD_HANDLERS w)
    (block_HANDLERS w) l (Array_prototype w) (strict_errors w) (dom w)
    (element_ids w) (location w) (effects w) (joins w) (passed w).

Definition set_Array_prototype (l : list pushed) (w : World) : World :=
  mkWorld (page_SETTINGS w) (page_HANDLERS w) (PAGE_LOAD_HANDLERS w)
    (block_HANDLERS w) (APP_LOAD_HANDLERS w) l (strict_errors w) (dom w)
    (element_ids w) (location w) (effects w) (joins w) (passed w).

Definition set_strict_errors (l : list report) (w : World) : World :=
  mkWorld (page_SETTINGS w) (page_HANDLERS w) (PAGE_LOAD_HANDLERS w)
    (block_HANDLERS w) (APP_LOAD_HANDLERS w) (Array_prototype w) l (dom w)
    (element_ids w) (location w) (effects w) (joins w) (passed w).

Definition set_dom (d : gmap nat (list node)) (w : World) : World :=
  mkWorld (page_SETTINGS w) (page_HANDLERS w) (PAGE_LOAD_HANDLERS w)
    (block_HANDLERS w) (APP_LOAD_HANDLERS w) (Array_prototype w)
    (strict_errors w) d (element_ids w) (location w) (effects w) (joins w)
    (passed w).

Definition set_element_ids (l : list string) (w : World) : World :=
  mkWorld (page_SETTINGS w) (page_HANDLERS w) (PAGE_LOAD_HANDLERS w)
    (block_HANDLERS w) (APP_LOAD_HANDLERS w) (Array_prototype w)
    (strict_errors w) (dom w) l (location w) (effects w) (joins w)
    (passed w).

Definition set_location (url : string) (w : World) : World :=
  mkWorld (page_SETTINGS w) (page_HANDLERS w) (PAGE_LOAD_HANDLERS w)
    (block_HANDLERS w) (APP_LOAD_HANDLERS w) (Array_prototype w)
    (strict_errors w) (dom w) (element_ids w) url (effects w) (joins w)
    (passed w).

Definition set_effects (l : list effect) (w : World) : World :=
  mkWorld (page_SETTINGS w) (page_HANDLERS w) (PAGE_LOAD_HANDLERS w)
    (block_HANDLERS w) (APP_LOAD_HANDLERS w) (Array_prototype w)
    (strict_errors w) (dom w) (element_ids w) (location w) l (joins w)
    (passed w).

Definition set_joins (l : list join_cell) (w : World) : World :=
  mkWorld (page_SETTINGS w) (page_HANDLERS w) (PAGE_LOAD_HANDLERS w)
    (block_HANDLERS w) (APP_LOAD_HANDLERS w) (Array_prototype w)
    (strict_errors w) (dom w) (element_ids w) (location w) (effects w) l
    (passed w).

Definition set_passed (l : list response) (w : World) : World :=
  mkWorld (page_SETTINGS w) (page_HANDLERS w) (PAGE_LOAD_HANDLERS w)
    (block_HANDLERS w) (APP_LOAD_HANDLERS w) (Array_prototype w)
    (strict_errors w) (dom w) (element_ids w) (location w) (effects w)
    (joins w) l.

(** The strict-error channel: [strictError (x)] reports [x] and returns. *)
Definition strictError (r : report) (w : World) : World :=
  set_strict_errors (strict_errors w ++ [r]) w.

(** [element.empty ()], [element.append (x)] and [element.text ()] on the
    element numbered [c].  Appending [null] or [undefined] adds nothing. *)
Definition contents (c : nat) (w : World) : list node :=
  default [] (dom w !! c).

Definition empty (c : nat) (w : World) : World :=
  set_dom (<[c := []]> (dom w)) w.

Definition append (c : nat) (x : option node) (w : World) : World :=
  match x with
  | Some n => set_dom (<[c := contents c w ++ [n]]> (dom w)) w
  | None => w
  end.

Definition element_text (c : nat) (w : World) : string :=
  texts (contents c w).

(** ** Programs in callback style *)

(** The calls that leave the module, each with a callback. *)
Inductive call : Type :=
| CallPageHandler (f : nat) (id : string)
| GetTemplate (name : string)
| Ajax (url : string)
| ExpandDocumentBlocks (id : option string)
| ExpandBlock (id : string) (pageElement : option node)
| CallForeignHandler (n : nat) (id : option string).

(** [Return]: the function returns.  [Update f k]: a statement that changes
    the page, then [k].  [Read k]: [k] on the current page.  [Call c k]: the
    collaborator of [c] is given the callback [k], and the function returns.
    [Seq p q]: [p], and when it has returned, [q].  [Throw e]: an exception
    that nothing in the module catches. *)
Inductive Prog : Type :=
| Return
| Update (f : World -> World) (k : Prog)
| Read (k : World -> Prog)
| Call (c : call) (k : response -> Prog)
| Seq (p q : Prog)
| Throw (e : string).

Record State : Type := mkState {
  world : World;
  pending : list (call * (response -> Prog))
}.

Inductive outcome : Type :=
| Returned (st : State)
| Thrown (e : string) (st : State).

Definition state_of (o : outcome) : State :=
  match o with
  | Returned st => st
  | Thrown _ st => st
  end.

(** Runs a program until it returns to the event loop. *)
Fixpoint run (p : Prog) (st : State) : outcome :=
  match p with
  | Return => Returned st
  | Update f k => run k (mkState (f (world st)) (pending st))
  | Read k => run (k (world st)) st
  | Call c k => Returned (mkState (world st) (pending st ++ [(c, k)]))
  | Seq p q =>
      match run p st with
      | Returned st' => run q st'
      | Thrown e st' => Thrown e st'
      end
  | Throw e => Thrown e st
  end.

(** The collaborator of the [i]-th pending call answers with [r]. *)
Definition deliver (i : nat) (r : response) (st : State) : outcome :=
  match pending st !! i with
  | Some (_, k) => run (k r) (mkState (world st) (delete i (pending st)))
  | None => Returned st
  end.

(** The pending calls, without their callbacks. *)
Definition calls (st : State) : list call := (pending st).*1.

Definition failed (message : string) : response :=
  mkResponse (Some (mkError message)) None.

Definition succeeded (x : option node) : response :=
  mkResponse None x.

(** ** The two stores *)

(** *** PageLoadHandlerStore: [PAGE_LOAD_HANDLERS] *)

Definition PageLoadHandlerStore_add (handler : reaction) (w : World) : World :=
  set_PAGE_LOAD_HANDLERS (PAGE_LOAD_HANDLERS w ++ [handler]) w.

(** [Array.prototype.push (_handlers, handlers)]: the receiver of [push] is
    [Array.prototype], which gets the two arguments as new elements. *)
Definition PageLoadHandlerStore_addHandlers (handlers : list reaction)
    (w : World) : World :=
  set_Array_prototype
    (Array_prototype w ++ [PushedStoreArray; PushedArray handlers]) w.

(** *** page_HandlerStore: [page_HANDLERS] *)

Definition page_HandlerStore_get (type : string) (w : World) : value :=
  default VUndefined (page_HANDLERS w !! type).

Definition conflict_error (type : string) : Error :=
  mkError ("[page][page_HandlerStore] Error: an error occured while trying to register a page handler for "
           +:+ dq +:+ type +:+ dq
           +:+ ". Another handler has already been registered for "
           +:+ dq +:+ type +:+ dq +:+ ".").

Definition page_HandlerStore_add (type : string) (handler : value) (w : World)
  : World :=
  if truthy (page_HandlerStore_get type w)
  then strictError (ReportError (conflict_error type)) w
  else set_page_HANDLERS (<[type := handler]> (page_HANDLERS w)) w.

(** [handlers] lists the properties of the argument in the order [for in]
    visits them. *)
Definition page_HandlerStore_addHandlers (handlers : list (string * value))
    (w : World) : World :=
  fold_left (fun w' th => page_HandlerStore_add th.1 th.2 w') handlers w.

(** ** Effects *)

Definition page_fadeout (w : World) : World :=
  set_effects (effects w ++ [FadeIn "#overlay" 250]) w.

Definition page_fadein (w : World) : World :=
  set_effects (effects w ++ [FadeOut "#overlay" 250]) w.

Definition nonblank (id : option string) : option string :=
  if blank id then None else id.

(** ** A page to run the examples on *)

(** The state of a page whose scripts have just been read: nothing is
    registered and nothing has been reported. *)
Definition initial_world (url : string) : World :=
  mkWorld None ∅ [] [] [] [] [] ∅ [] url [] [] [].

(** A content classifier for the examples: the part of an ID before its first
    colon. *)
Fixpoint before_colon (id : string) : string :=
  match id with
  | EmptyString => EmptyString
  | String a id' =>
      if Ascii.eqb a (Ascii.ascii_of_nat 58) then EmptyString
      else String a (before_colon id')
  end.

(** URL helpers for the examples: the page ID is what follows the first [#]
    of the URL, and there is no nested fragment. *)
Fixpoint after_hash (url : string) : option string :=
  match url with
  | EmptyString => None
  | String a url' =>
      if Ascii.eqb a (Ascii.ascii_of_nat 35) then Some url'
      else after_hash url'
  end.

Definition no_fragment (url : string) : option string := None.

Definition example_settings : Settings := mkSettings "home" "error.tpl".

(** The settings document of the examples. *)
Definition example_document : node :=
  Element "#document" []
    [Element "settings" []
       [Element "default_page_id" [] [Text "home"];
        Element "error_page_template" [] [Text "error.tpl"]]].

(** A page whose settings are loaded, with a function registered for the
    pages of type [static] and an element to scroll to. *)
Definition example_world : World :=
  page_HandlerStore_add "static" (VFunction 0)
    (set_page_SETTINGS (Some example_settings)
       (set_element_ids ["top"] (initial_world "http://example.org/"))).

(** Error page templates without and with a [page_error_block]. *)
Definition plain_template : node := Element "div" [] [Text "Sorry"].

Definition error_template : node :=
  Element "div" [] [Text "Sorry: "; Element "span" ["page_error_block"] []].

Section Page.

(** Collaborators that are pure functions. *)
Variable getContentType : string -> string.
Variable getIdFromURL : string -> option string.
Variable getFragmentFromURL : string -> option string.

Definition page_scroll (url : string) (w : World) : World :=
  let fragmentId := default "top" (nonblank (getFragmentFromURL url)) in
  if existsb (String.eqb fragmentId) (element_ids w)
  then set_effects (effects w ++ [AnimateScrollTo fragmentId]) w
  else strictError
         (ReportText ("[page][page_scroll] Warning: This page does not have an element whose ID equals "
                      +:+ dq +:+ fragmentId +:+ dq +:+ ".")) w.

(** ** Page elements *)

Definition invalid_handler_error : Error :=
  mkError "[page][page_applyPageHandler] Error: invalid page handler type. Page handlers must be either a string or a function.".

(** [$.type (handler)] is ['function'] for [VFunction] and ['string'] for
    [VString] only. *)
Definition page_applyPageHandler (handler : value) (id : string)
    (done : option Error -> option node -> Prog) : Prog :=
  match handler with
  | VFunction f =>
      Call (CallPageHandler f id) (fun r => done (r_error r) (r_value r))
  | VString name =>
      Call (GetTemplate name) (fun r => done (r_error r) (r_value r))
  | _ =>
      Update (strictError (ReportError invalid_handler_error))
        (done (Some invalid_handler_error) None)
  end.

Definition page_getPageElement (id : string)
    (done : option Error -> option node -> Prog) : Prog :=
  Read (fun w =>
    let handler := page_HandlerStore_get (getContentType id) w in
    if truthy handler then page_applyPageHandler handler id done
    else done None None).

Definition error_page_error (errorPageError : Error) : Error :=
  mkError ("[page][page_getErrorPageElement] Error: an error occured while trying to load the Error Page template. "
           +:+ message errorPageError).

(** Reading [page_SETTINGS.error_page_template] while [page_SETTINGS] is
    [null] throws. *)
Definition page_getErrorPageElement (error : Error)
    (done : option Error -> option node -> Prog) : Prog :=
  Read (fun w =>
    match page_SETTINGS w with
    | None => Throw "TypeError"
    | Some settings =>
        Call (GetTemplate (error_page_template settings)) (fun r =>
          match r_error r with
          | Some errorPageError =>
              done (Some (error_page_error errorPageError)) None
          | None =>
              done None
                (replaceWith "page_error_block" (message error) <$> r_value r)
          end)
    end).

Definition page_element_error (error : Error) : Error :=
  mkError ("[page][page_setPageElement] Error: an error occured while trying to load a page element. "
           +:+ message error).

(** The callback [page_setPageElement] gives to [page_getPageElement]
    (line 332). *)
Definition page_setPageElement_loaded (containerElement : nat)
    (done : option Error -> option node -> Prog)
    (error : option Error) (pageElement : option node) : Prog :=
  match error with
  | Some e =>
      let error := page_element_error e in
      Update (strictError (ReportError error))
        (page_getErrorPageElement error (fun errorPageError errorPageElement =>
           match errorPageError with
           | Some e' => done (Some e') None
           | None =>
               Update (empty containerElement)
                 (Update (append containerElement errorPageElement)
                    (done (Some error) None))
           end))
  | None =>
      Update (empty containerElement)
        (Update (append containerElement pageElement)
           (done None pageElement))
  end.

Definition page_setPageElement (containerElement : nat) (id : string)
    (done : option Error -> option node -> Prog) : Prog :=
  page_getPageElement id (page_setPageElement_loaded containerElement done).

(** ** The functions held by [PAGE_LOAD_HANDLERS] *)

(** The callback of the function [page_block] pushes (line 288). *)
Definition page_block_mounted (id : string) (next : option Error -> Prog)
    (error : option Error) (pageElement : option node) : Prog :=
  match error with
  | Some e => next (Some e)
  | None => Call (ExpandBlock id pageElement) (fun r => next (r_error r))
  end.

(** The function [page_block] pushes (line 278). *)
Definition page_block_onPageLoad (context : block_Context)
    (id : option string) (next : option Error -> Prog) : Prog :=
  match nonblank (js_or id (getId context)) with
  | None => Update (empty (element context)) (next None)
  | Some id =>
      page_setPageElement (element context) id (page_block_mounted id next)
  end.

Definition apply_reaction (fn : reaction) (id : option string)
    (next : option Error -> Prog) : Prog :=
  match fn with
  | ExpandDocumentBlocksHandler =>
      Call (ExpandDocumentBlocks id) (fun r => next (r_error r))
  | PageBlockHandler context => page_block_onPageLoad context id next
  | ForeignHandler n =>
      Call (CallForeignHandler n id) (fun r => next (r_error r))
  end.

(** ** Executing the Page Load Handlers *)

Definition complete (j : nat) (error : option Error) (w : World) : World :=
  set_joins
    (alter (fun c => mkJoin (expected c) (S (completed c))
                       (joined c ++ option_list error)) j (joins w)) w.

Definition all_completed (j : nat) (w : World) : bool :=
  match joins w !! j with
  | Some c => completed c =? expected c
  | None => false
  end.

Definition join_callback (j : nat) (done : Prog) (error : option Error)
  : Prog :=
  Update (complete j error)
    (Read (fun w => if all_completed j w then done else Return)).

Fixpoint start_each (fns : list reaction) (id : option string)
    (next : option Error -> Prog) : Prog :=
  match fns with
  | [] => Return
  | fn :: fns' => Seq (apply_reaction fn id next) (start_each fns' id next)
  end.

(** Modelled from the spec: [async.applyEach], which is not part of page.js.
    It invokes every function of [fns] with [id], all of them before it waits
    for any to call back; it joins the errors they call back with, and when
    all have called back it calls [done] with no result value.  The join is
    a counter, made when the call begins. *)
Definition applyEach (fns : list reaction) (id : option string) (done : Prog)
  : Prog :=
  match fns with
  | [] => done
  | _ =>
      Read (fun w =>
        let j := length (joins w) in
        Update (set_joins (joins w ++ [mkJoin (length fns) 0 []]))
          (start_each fns id (join_callback j done)))
  end.

Definition PageLoadHandlerStore_execute (id : option string) (done : Prog)
  : Prog :=
  Read (fun w => applyEach (PAGE_LOAD_HANDLERS w) id done).

(** ** The Block Handler *)

Definition page_block (context : block_Context)
    (done : option Error -> option node -> Prog) : Prog :=
  Update (PageLoadHandlerStore_add (PageBlockHandler context))
    (Read (fun w =>
       match nonblank (js_or (Some (element_text (element context) w))
                             (getId context)) with
       | None => Update (empty (element context)) (done None None)
       | Some id => page_setPageElement (element context) id done
       end)).

(** ** Loading the module *)

Definition page_SETTINGS_URL : string := "modules/page/settings.xml".

Definition page_parseSettings (doc : option node) : Settings :=
  let found (name : string) :=
    texts (default [] (select_child "settings" name <$> doc)) in
  mkSettings (found "default_page_id") (found "error_page_template").

Definition settings_error (url : string) (error : string) : Error :=
  mkError ("[page][page_loadSettings] Error: an error occured while trying to load the Page module's settings.xml file from "
           +:+ dq +:+ url +:+ dq +:+ ". " +:+ error).

Definition page_loadSettings (url : string)
    (done : option Error -> option Settings -> Prog) : Prog :=
  Call (Ajax url) (fun r =>
    match r_error r with
    | None => done None (Some (page_parseSettings (r_value r)))
    | Some e =>
        let error := settings_error url (message e) in
        Update (strictError (ReportError error)) (done (Some error) None)
    end).

(** The function the module registers in [APP_LOAD_HANDLERS] (line 157).  It
    never calls its own continuation. *)
Definition page_onAppLoad (settings : option Settings) (done : Prog) : Prog :=
  Read (fun w =>
    let url := location w in
    let loaded :=
      Update page_fadein (Update (page_scroll url) Return) in
    if blank (getIdFromURL url)
    then match settings with
         | Some s =>
             PageLoadHandlerStore_execute (Some (default_page_id s)) loaded
         | None => Throw "TypeError"
         end
    else PageLoadHandlerStore_execute (getIdFromURL url) loaded).

Definition apply_app_handler (h : app_handler) (done : Prog) : Prog :=
  match h with
  | PageAppLoadHandler settings => page_onAppLoad settings done
  end.

(** The module's load event handler (line 137). *)
Definition page_onModuleLoad (done : option Error -> Prog) : Prog :=
  page_loadSettings page_SETTINGS_URL (fun error settings =>
    match error with
    | Some e => done (Some e)
    | None =>
        Update (set_page_SETTINGS settings)
          (Update (fun w => set_block_HANDLERS
                              (block_HANDLERS w ++ [("page_block", page_block_handler)]) w)
             (Update (PageLoadHandlerStore_add ExpandDocumentBlocksHandler)
                (Update (fun w => set_APP_LOAD_HANDLERS
                                    (APP_LOAD_HANDLERS w ++
                                       [PageAppLoadHandler settings]) w)
                   (done None))))
    end).

(** The [hashchange] listener (line 222). *)
Definition page_onHashChange : Prog :=
  Read (fun w =>
    let url := location w in
    PageLoadHandlerStore_execute (getIdFromURL url)
      (Update (page_scroll url) Return)).

(** ** Callers *)

(** A continuation of a caller outside the module: it notes what it is
    passed and returns. *)
Definition note (error : option Error) (x : option node) : Prog :=
  Update (fun w => set_passed (passed w ++ [mkResponse error x]) w) Return.

Definition note_error (error : option Error) : Prog := note error None.

(** What can happen on the page: a caller uses one of the module's entry
    points, the app is loaded, the browser moves to a URL that differs in its
    hash and fires [hashchange], or a collaborator answers a pending call. *)
Inductive event : Type :=
| ModuleLoad
| AppLoad
| HashChange (url : string)
| ExpandPageBlock (context : block_Context)
| SetPageElement (containerElement : nat) (id : string)
| RegisterPageHandler (type : string) (handler : value)
| RegisterPageHandlers (handlers : list (string * value))
| AddPageLoadHandler (n : nat)
| AddPageLoadHandlers (ns : list nat)
| ExecutePageLoadHandlers (id : option string)
| Answer (i : nat) (r : response).

Fixpoint each_app_handler (l : list app_handler) : Prog :=
  match l with
  | [] => Return
  | h :: l' => Seq (apply_app_handler h Return) (each_app_handler l')
  end.

Definition entry (e : event) : Prog :=
  match e with
  | ModuleLoad => page_onModuleLoad note_error
  | AppLoad => Read (fun w => each_app_handler (APP_LOAD_HANDLERS w))
  | HashChange url => Update (set_location url) page_onHashChange
  | ExpandPageBlock context => page_block context note
  | SetPageElement c id => page_setPageElement c id note
  | RegisterPageHandler type handler =>
      Update (page_HandlerStore_add type handler) Return
  | RegisterPageHandlers handlers =>
      Update (page_HandlerStore_addHandlers handlers) Return
  | AddPageLoadHandler n =>
      Update (PageLoadHandlerStore_add (ForeignHandler n)) Return
  | AddPageLoadHandlers ns =>
      Update (PageLoadHandlerStore_addHandlers (ForeignHandler <$> ns)) Return
  | ExecutePageLoadHandlers id => PageLoadHandlerStore_execute id Return
  | Answer _ _ => Return
  end.

Definition fire (e : event) (st : State) : State :=
  match e with
  | Answer i r => state_of (deliver i r st)
  | _ => state_of (run (entry e) st)
  end.

Definition fire_all (es : list event) (st : State) : State :=
  fold_left (fun st' e => fire e st') es st.

(** ** Statements that are tried on the code *)


(** A page handler that is called with a callback: a function, or the name
    of a template. *)
Definition handler_call (handler : value) (id : string) : option call :=
  match handler with
  | VFunction f => Some (CallPageHandler f id)
  | VString name => Some (GetTemplate name)
  | _ => None
  end.

(** The page handler of [id] fails with [E], the error page template loads as
    [T]: the failure is reported, the container shows the message of [E],
    and the caller is passed [E]. *)
Definition failure_is_shown_and_passed (containerElement : nat) (id : string)
    (E : Error) (T : node) (w : World) : Prop :=
  let st1 := state_of (run (page_setPageElement containerElement id note)
                         (mkState w [])) in
  let st2 := state_of (deliver 0 (mkResponse (Some E) None) st1) in
  let st3 := state_of (deliver 0 (succeeded (Some T)) st2) in
  (∃ r, strict_errors (world st2) = strict_errors w ++ [ReportError r])
  ∧ (∃ n, n ∈ contents containerElement (world st3)
          ∧ includes (message E) (text n) = true)
  ∧ passed (world st3) = passed w ++ [mkResponse (Some E) None].

(** The call a Page Load Handler makes as soon as it is called with [id].
    The handlers pushed by [page_block] do more than one call. *)
Definition outgoing (id : option string) (fn : reaction) : option call :=
  match fn with
  | ExpandDocumentBlocksHandler => Some (ExpandDocumentBlocks id)
  | ForeignHandler n => Some (CallForeignHandler n id)
  | PageBlockHandler _ => None
  end.

(** Pending calls whose answers all go to [next]. *)
Definition waiting (next : option Error -> Prog) (cs : list call)
  : list (call * (response -> Prog)) :=
  (fun c => (c, fun r => next (r_error r))) <$> cs.

(** Answers given one after the other.  An answer names the pending call it
    answers by the index the call has at that time. *)
Definition deliver_all (answers : list (nat * response)) (st : State)
  : State :=
  fold_left (fun st' a => state_of (deliver a.1 a.2 st')) answers st.

(** Every answer goes to one of the [n] calls pending from index [base]. *)
Fixpoint in_turn (base n : nat) (answers : list (nat * response)) : Prop :=
  match answers with
  | [] => True
  | a :: answers' => base <= a.1 < base + n ∧ in_turn base (n - 1) answers'
  end.

Definition completes (j : nat) (answers : list (nat * response)) (w : World)
  : World :=
  fold_left (fun w' a => complete j (r_error a.2) w') answers w.

Definition remaining (base : nat) (answers : list (nat * response))
    (cs : list call) : list call :=
  fold_left (fun cs' a => delete (a.1 - base) cs') answers cs.

(** A program, and every callback it leaves pending, changes the page only
    by steps that [R] relates. *)
Inductive respects (R : World -> World -> Prop) : Prog -> Prop :=
| respects_Return : respects R Return
| respects_Update (f : World -> World) (k : Prog) :
    (forall w, R w (f w)) -> respects R k -> respects R (Update f k)
| respects_Read (k : World -> Prog) :
    (forall w, respects R (k w)) -> respects R (Read k)
| respects_Call (c : call) (k : response -> Prog) :
    (forall r, respects R (k r)) -> respects R (Call c k)
| respects_Seq (p q : Prog) :
    respects R p -> respects R q -> respects R (Seq p q)
| respects_Throw (e : string) : respects R (Throw e).

(** The Page Load Handlers of [w'] are those of [w], in the same places,
    and maybe more after them. *)
Definition handlers_grow (w w' : World) : Prop :=
  PAGE_LOAD_HANDLERS w `prefix_of` PAGE_LOAD_HANDLERS w'.

Definition handlers_stay (w w' : World) : Prop :=
  PAGE_LOAD_HANDLERS w' = PAGE_LOAD_HANDLERS w.

Definition callbacks_respect (R : World -> World -> Prop) (st : State)
  : Prop :=
  Forall (fun ck => forall r, respects R (ck.2 r)) (pending st).

(** What a Page Load Handler leaves pending when it is called with a page ID
    [id] whose page handler is called by [c]. *)
Definition started_call (id : string) (c : call) (fn : reaction) : call :=
  match fn with
  | ExpandDocumentBlocksHandler => ExpandDocumentBlocks (Some id)
  | PageBlockHandler _ => c
  | ForeignHandler n => CallForeignHandler n (Some id)
  end.

Definition started (id : string) (c : call) (next : option Error -> Prog)
    (fn : reaction) : call * (response -> Prog) :=
  (started_call id c fn,
   match fn with
   | PageBlockHandler context =>
       fun r => page_setPageElement_loaded (element context)
                  (page_block_mounted id next) (r_error r) (r_value r)
   | _ => fun r => next (r_error r)
   end).

(** A program that runs to its end without throwing on a page whose settings
    are loaded, keeps them loaded, and leaves the element [c] empty when it
    finds it empty.  Nothing is asked of the callbacks it leaves pending. *)
Inductive calm (c : nat) : Prog -> Prop :=
| calm_Return : calm c Return
| calm_Update (f : World -> World) (k : Prog) :
    (forall w, is_Some (page_SETTINGS w) ->
               is_Some (page_SETTINGS (f w))
               ∧ (contents c w = [] -> contents c (f w) = [])) ->
    calm c k -> calm c (Update f k)
| calm_Read (k : World -> Prog) :
    (forall w, is_Some (page_SETTINGS w) -> calm c (k w)) -> calm c (Read k)
| calm_Call (cl : call) (k : response -> Prog) : calm c (Call cl k)
| calm_Seq (p q : Prog) : calm c p -> calm c q -> calm c (Seq p q).

(** The settings and the stores of [w'] are those of [w]. *)
Definition same_stores (w w' : World) : Prop :=
  page_SETTINGS w' = page_SETTINGS w
  ∧ page_HANDLERS w' = page_HANDLERS w
  ∧ PAGE_LOAD_HANDLERS w' = PAGE_LOAD_HANDLERS w
  ∧ block_HANDLERS w' = block_HANDLERS w
  ∧ APP_LOAD_HANDLERS w' = APP_LOAD_HANDLERS w
  ∧ Array_prototype w' = Array_prototype w.

(** Every page type that has a truthy handler in [w] has the same handler in
    [w']. *)
Definition handlers_kept (w w' : World) : Prop :=
  forall type : string,
    truthy (page_HandlerStore_get type w) = true ->
    page_HandlerStore_get type w' = page_HandlerStore_get type w.

(** The settings, once loaded, stay loaded. *)
Definition settings_stay_loaded (w w' : World) : Prop :=
  is_Some (page_SETTINGS w) -> is_Some (page_SETTINGS w').

(** A settings document whose [settings] element has the given children,
    each a name with a text, and what [$('settings > ' + name, doc).text ()]
    finds in it: the texts of the children of that name, one after the
    other. *)
Definition field_element (f : string * string) : node :=
  Element f.1 [] [Text f.2].

Definition settings_document (fields : list (string * string)) : node :=
  Element "#document" [] [Element "settings" [] (field_element <$> fields)].

Fixpoint field_text (name : string) (fields : list (string * string))
  : string :=
  match fields with
  | [] => EmptyString
  | f :: fields' =>
      if String.eqb f.1 name then f.2 +:+ field_text name fields'
      else field_text name fields'
  end.






(** * Theorems *)

(** ** Running programs *)

Lemma deliver_last (w : World) (pool : list (call * (response -> Prog)))
    (c : call) (k : response -> Prog) (r : response) :
  deliver (length pool) r (mkState w (pool ++ [(c, k)]))
  = run (k r) (mkState w pool).
Proof.
  unfold deliver; simpl.
  rewrite list_lookup_middle by reflexivity.
  rewrite delete_middle, app_nil_r. reflexivity.
Qed.

Lemma deliver_only (w : World) (c : call) (k : response -> Prog)
    (r : response) :
  deliver 0 r (mkState w [(c, k)]) = run (k r) (mkState w []).
Proof. reflexivity. Qed.

(** ** The Page Handler store *)

Lemma get_after_insert (type : string) (handler : value) (w : World) :
  page_HandlerStore_get type
    (set_page_HANDLERS (<[type := handler]> (page_HANDLERS w)) w) = handler.
Proof.
  unfold page_HandlerStore_get; simpl.
  rewrite lookup_insert_eq. reflexivity.
Qed.

Lemma add_free (type : string) (handler : value) (w : World) :
  truthy (page_HandlerStore_get type w) = false ->
  page_HandlerStore_add type handler w
  = set_page_HANDLERS (<[type := handler]> (page_HANDLERS w)) w.
Proof. intros H. unfold page_HandlerStore_add. rewrite H. reflexivity. Qed.

Lemma add_taken (type : string) (handler : value) (w : World) :
  truthy (page_HandlerStore_get type w) = true ->
  page_HandlerStore_add type handler w
  = strictError (ReportError (conflict_error type)) w.
Proof. intros H. unfold page_HandlerStore_add. rewrite H. reflexivity. Qed.


(** ** The Page Load Handler store *)

(** C2.  [addHandlers] leaves the store's array as it was, whatever it is
    given: the handlers end up in [Array.prototype], and a later [execute]
    does not call them. *)
Theorem addHandlers_adds_nothing (handlers : list reaction) (w : World) :
  PAGE_LOAD_HANDLERS (PageLoadHandlerStore_addHandlers handlers w)
  = PAGE_LOAD_HANDLERS w
  ∧ Array_prototype (PageLoadHandlerStore_addHandlers handlers w)
    = Array_prototype w ++ [PushedStoreArray; PushedArray handlers].
Proof. split; reflexivity. Qed.

(** ** Page elements *)

(** C9.  A handler that is neither a function nor a string is not called:
    [page_applyPageHandler] reports the invalid-handler error through
    [strictError] and passes that error to [done]. *)
Theorem applyPageHandler_invalid (handler : value) (id : string)
    (done : option Error -> option node -> Prog) (st : State) :
  jq_type handler <> "function" ->
  jq_type handler <> "string" ->
  run (page_applyPageHandler handler id done) st
  = run (done (Some invalid_handler_error) None)
      (mkState (strictError (ReportError invalid_handler_error) (world st))
         (pending st)).
Proof.
  intros Hf Hs. destruct handler; simpl in *; try reflexivity; congruence.
Qed.


(** ** Strings and elements *)


Lemma starts_with_refl (s : string) : starts_with s s = true.
Proof.
  induction s as [| a s IH]; simpl; [reflexivity |].
  rewrite Ascii.eqb_refl. exact IH.
Qed.


Lemma includes_refl (s : string) : includes s s = true.
Proof.
  destruct s; simpl; [reflexivity |].
  rewrite Ascii.eqb_refl, starts_with_refl. reflexivity.
Qed.


Lemma includes_app_r (s t u : string) :
  includes s u = true -> includes s (t +:+ u) = true.
Proof.
  intros H. induction t as [| b t IH]; simpl; [exact H |].
  apply orb_true_iff. right. exact IH.
Qed.

Lemma text_Element (tag : string) (classes : list string)
    (children : list node) :
  text (Element tag classes children) = texts children.
Proof. reflexivity. Qed.


(** ** Loading the module *)

(** C7.  When the settings document cannot be loaded, the module load handler
    reports the error, passes it to its continuation, and registers nothing:
    the settings, the block handlers, the page load handlers and the app load
    handlers are as they were. *)
Theorem onModuleLoad_settings_failure (done : option Error -> Prog)
    (w : World) (pool : list (call * (response -> Prog))) (reason : string)
    (doc : option node) :
  let st1 := state_of (run (page_onModuleLoad done) (mkState w pool)) in
  let error := settings_error page_SETTINGS_URL reason in
  let w' := strictError (ReportError error) w in
  world st1 = w
  ∧ calls st1 = pool.*1 ++ [Ajax page_SETTINGS_URL]
  ∧ deliver (length pool) (mkResponse (Some (mkError reason)) doc) st1
    = run (done (Some error)) (mkState w' pool)
  ∧ page_SETTINGS w' = page_SETTINGS w
  ∧ block_HANDLERS w' = block_HANDLERS w
  ∧ PAGE_LOAD_HANDLERS w' = PAGE_LOAD_HANDLERS w
  ∧ APP_LOAD_HANDLERS w' = APP_LOAD_HANDLERS w.
Proof.
  simpl. repeat split.
  - unfold calls; simpl. rewrite fmap_app. reflexivity.
  - rewrite deliver_last. reflexivity.
Qed.

(** ** Setting the page element *)

Lemma calls_snoc (w : World) (pool : list (call * (response -> Prog)))
    (c : call) (k : response -> Prog) :
  calls (mkState w (pool ++ [(c, k)])) = pool.*1 ++ [c].
Proof. unfold calls; simpl. rewrite fmap_app. reflexivity. Qed.

(** A handler that is called with a callback leaves one pending call, and
    its answer goes to the callback of [page_getPageElement]. *)
Lemma getPageElement_calls (id : string) (handler : value) (c : call)
    (done : option Error -> option node -> Prog) (w : World)
    (pool : list (call * (response -> Prog))) :
  page_HandlerStore_get (getContentType id) w = handler ->
  truthy handler = true ->
  handler_call handler id = Some c ->
  run (page_getPageElement id done) (mkState w pool)
  = Returned (mkState w
      (pool ++ [(c, fun r => done (r_error r) (r_value r))])).
Proof.
  intros Hget Htruthy Hcall. unfold page_getPageElement; simpl.
  rewrite Hget, Htruthy.
  destruct handler; simpl in Hcall; try discriminate;
    injection Hcall as <-; reflexivity.
Qed.

Lemma contents_append_empty (c : nat) (n : node) (w : World) :
  contents c (append c (Some n) (empty c w)) = [n].
Proof.
  unfold contents, append, empty, contents; simpl.
  rewrite lookup_insert_eq; simpl. rewrite lookup_insert_eq. reflexivity.
Qed.

Lemma includes_element_error (E : Error) :
  includes (message E) (message (page_element_error E)) = true.
Proof.
  unfold page_element_error; simpl message.
  apply includes_app_r, includes_refl.
Qed.


(** C6.  The page handler of [id] fails with [E] and the error page template
    cannot be loaded either.  [page_setPageElement] passes [done] the error
    of [page_getErrorPageElement], asks for nothing more, and leaves every
    element of the page as it was. *)
Theorem setPageElement_error_page_failure (containerElement : nat)
    (id : string) (handler : value) (c : call) (E E' : Error)
    (x y : option node) (settings : Settings)
    (done : option Error -> option node -> Prog)
    (w : World) (pool : list (call * (response -> Prog))) :
  page_SETTINGS w = Some settings ->
  page_HandlerStore_get (getContentType id) w = handler ->
  truthy handler = true ->
  handler_call handler id = Some c ->
  let st1 := state_of (run (page_setPageElement containerElement id done)
                         (mkState w pool)) in
  let st2 := state_of (deliver (length pool) (mkResponse (Some E) x) st1) in
  let w2 := strictError (ReportError (page_element_error E)) w in
  deliver (length pool) (mkResponse (Some E') y) st2
  = run (done (Some (error_page_error E')) None) (mkState w2 pool)
  ∧ dom w2 = dom w.
Proof.
  intros Hsettings Hget Htruthy Hcall st1 st2 w2.
  subst st2 st1. unfold page_setPageElement.
  rewrite (getPageElement_calls _ _ _ _ _ _ Hget Htruthy Hcall).
  simpl state_of. rewrite deliver_last.
  unfold page_getErrorPageElement; simpl. rewrite Hsettings; simpl.
  split; [apply deliver_last | reflexivity].
Qed.

(** ** Executing the Page Load Handlers *)

Lemma delete_app_r {A : Type} (l1 l2 : list A) (i : nat) :
  length l1 <= i -> delete i (l1 ++ l2) = l1 ++ delete (i - length l1) l2.
Proof.
  revert i. induction l1 as [| x l1 IH]; intros i Hi; simpl in *.
  - rewrite Nat.sub_0_r. reflexivity.
  - destruct i as [| i]; [lia |]. simpl. f_equal. apply IH. lia.
Qed.

Lemma start_each_outgoing (fns : list reaction) (cs : list call)
    (id : option string) (next : option Error -> Prog) (w : World)
    (pool : list (call * (response -> Prog))) :
  mapM (outgoing id) fns = Some cs ->
  run (start_each fns id next) (mkState w pool)
  = Returned (mkState w (pool ++ waiting next cs)).
Proof.
  revert cs pool. induction fns as [| fn fns IH]; intros cs pool Hcs.
  - injection Hcs as <-. simpl. rewrite app_nil_r. reflexivity.
  - simpl in Hcs. destruct (outgoing id fn) as [c |] eqn:Hfn; [| discriminate].
    destruct (mapM (outgoing id) fns) as [cs' |] eqn:Hfns; [| discriminate].
    injection Hcs as <-. simpl.
    assert (Hrun : run (apply_reaction fn id next) (mkState w pool)
                   = Returned (mkState w
                       (pool ++ [(c, fun r => next (r_error r))]))).
    { destruct fn; simpl in Hfn; try discriminate;
        injection Hfn as <-; reflexivity. }
    rewrite Hrun, (IH cs' _ eq_refl), <- app_assoc. reflexivity.
Qed.

Lemma deliver_waiting (next : option Error -> Prog) (cs : list call)
    (w : World) (pool : list (call * (response -> Prog))) (i : nat)
    (r : response) :
  length pool <= i < length pool + length cs ->
  deliver i r (mkState w (pool ++ waiting next cs))
  = run (next (r_error r))
      (mkState w (pool ++ waiting next (delete (i - length pool) cs))).
Proof.
  intros [Hlo Hhi]. unfold deliver; simpl.
  rewrite lookup_app_r by exact Hlo.
  destruct (cs !! (i - length pool)) as [c |] eqn:Hc.
  - unfold waiting at 1. rewrite list_lookup_fmap, Hc; simpl.
    rewrite delete_app_r by exact Hlo.
    unfold waiting. rewrite list_fmap_delete. reflexivity.
  - apply lookup_ge_None in Hc. lia.
Qed.

Lemma join_callback_run (j : nat) (done : Prog) (error : option Error)
    (cell : join_cell) (w : World)
    (pool : list (call * (response -> Prog))) :
  joins w !! j = Some cell ->
  run (join_callback j done error) (mkState w pool)
  = if S (completed cell) =? expected cell
    then run done (mkState (complete j error w) pool)
    else Returned (mkState (complete j error w) pool).
Proof.
  intros Hcell. unfold join_callback, all_completed, complete; simpl.
  rewrite list_lookup_alter_eq, Hcell; simpl.
  destruct (expected cell) as [| m]; [reflexivity |].
  destruct (completed cell =? m); reflexivity.
Qed.

Lemma joins_complete (j : nat) (error : option Error) (cell : join_cell)
    (w : World) :
  joins w !! j = Some cell ->
  joins (complete j error w) !! j
  = Some (mkJoin (expected cell) (S (completed cell))
            (joined cell ++ option_list error)).
Proof.
  intros Hcell. unfold complete; simpl.
  rewrite list_lookup_alter_eq, Hcell. reflexivity.
Qed.

(** While fewer answers have come than handlers were started, [done] has not
    run: the state holds the completions and the calls still pending. *)
Lemma deliver_all_waiting (j : nat) (done : Prog)
    (pool : list (call * (response -> Prog)))
    (answers : list (nat * response)) :
  forall (cs : list call) (w : World) (cell : join_cell),
    joins w !! j = Some cell ->
    completed cell + length cs = expected cell ->
    in_turn (length pool) (length cs) answers ->
    length answers < length cs ->
    deliver_all answers (mkState w (pool ++ waiting (join_callback j done) cs))
    = mkState (completes j answers w)
        (pool ++ waiting (join_callback j done)
                   (remaining (length pool) answers cs)).
Proof.
  induction answers as [| a answers IH]; intros cs w cell Hcell Hsum Hturn Hlt.
  - reflexivity.
  - destruct Hturn as [Hi Hturn]. simpl in Hlt.
    assert (Hlen : length (delete (a.1 - length pool) cs) = length cs - 1).
    { apply length_delete, lookup_lt_is_Some_2. lia. }
    unfold deliver_all, completes, remaining; simpl.
    rewrite deliver_waiting by exact Hi.
    rewrite (join_callback_run _ _ _ _ _ _ Hcell).
    replace (S (completed cell) =? expected cell) with false
      by (symmetry; apply Nat.eqb_neq; lia).
    simpl state_of.
    apply (IH _ _ _ (joins_complete _ _ _ _ Hcell)); simpl.
    + lia.
    + rewrite Hlen. exact Hturn.
    + lia.
Qed.

(** The answer that completes the last handler runs [done]. *)
Lemma deliver_all_done (j : nat) (done : Prog)
    (pool : list (call * (response -> Prog)))
    (answers : list (nat * response)) :
  forall (cs : list call) (w : World) (cell : join_cell),
    joins w !! j = Some cell ->
    completed cell + length cs = expected cell ->
    in_turn (length pool) (length cs) answers ->
    length answers = length cs ->
    cs <> [] ->
    deliver_all answers (mkState w (pool ++ waiting (join_callback j done) cs))
    = state_of (run done (mkState (completes j answers w) pool)).
Proof.
  induction answers as [| a answers IH];
    intros cs w cell Hcell Hsum Hturn Hlen Hcs.
  - destruct cs; [congruence | discriminate].
  - destruct Hturn as [Hi Hturn]. simpl in Hlen.
    assert (Hdel : length (delete (a.1 - length pool) cs) = length cs - 1).
    { apply length_delete, lookup_lt_is_Some_2. lia. }
    unfold deliver_all, completes; simpl.
    rewrite deliver_waiting by exact Hi.
    rewrite (join_callback_run _ _ _ _ _ _ Hcell).
    destruct answers as [| a' answers].
    + replace (S (completed cell) =? expected cell) with true
        by (symmetry; apply Nat.eqb_eq; simpl in Hlen; lia).
      simpl in Hlen.
      rewrite (nil_length_inv (delete (a.1 - length pool) cs)) by lia.
      simpl. rewrite app_nil_r. reflexivity.
    + replace (S (completed cell) =? expected cell) with false
        by (symmetry; apply Nat.eqb_neq; simpl in Hlen; lia).
      simpl state_of.
      apply (IH _ _ _ (joins_complete _ _ _ _ Hcell)).
      * simpl. lia.
      * rewrite Hdel. exact Hturn.
      * lia.
      * intros Hnil. rewrite Hnil in Hdel. simpl in Hdel, Hlen. lia.
Qed.

(** The join cell counts the answers and keeps their errors, in the order
    they came. *)
Lemma joins_completes (j : nat) (answers : list (nat * response)) :
  forall (w : World) (cell : join_cell),
    joins w !! j = Some cell ->
    joins (completes j answers w) !! j
    = Some (mkJoin (expected cell) (completed cell + length answers)
              (joined cell ++ omap (fun a => r_error a.2) answers)).
Proof.
  induction answers as [| a answers IH]; intros w cell Hcell.
  - simpl. rewrite Nat.add_0_r, app_nil_r. destruct cell. exact Hcell.
  - unfold completes; simpl.
    pose proof (IH _ _ (joins_complete j (r_error a.2) cell w Hcell)) as H.
    unfold completes in H. rewrite H. simpl. f_equal. f_equal; [lia |].
    rewrite <- app_assoc. f_equal. destruct (r_error a.2); reflexivity.
Qed.

(** [execute] with handlers that call out: a join cell is made, and every
    handler has been called when [execute] returns. *)
Lemma execute_outgoing (fns : list reaction) (cs : list call)
    (id : option string) (done : Prog) (w : World)
    (pool : list (call * (response -> Prog))) :
  PAGE_LOAD_HANDLERS w = fns ->
  fns <> [] ->
  mapM (outgoing id) fns = Some cs ->
  run (PageLoadHandlerStore_execute id done) (mkState w pool)
  = Returned
      (mkState (set_joins (joins w ++ [mkJoin (length fns) 0 []]) w)
         (pool ++ waiting (join_callback (length (joins w)) done) cs)).
Proof.
  intros Hfns Hne Hcs. unfold PageLoadHandlerStore_execute; simpl.
  rewrite Hfns. destruct fns as [| fn fns]; [congruence |].
  unfold applyEach. cbn [run world pending].
  apply start_each_outgoing, Hcs.
Qed.

Lemma execute_nothing (id : option string) (done : Prog) (st : State) :
  PAGE_LOAD_HANDLERS (world st) = [] ->
  run (PageLoadHandlerStore_execute id done) st = run done st.
Proof.
  intros H. unfold PageLoadHandlerStore_execute; simpl. rewrite H. reflexivity.
Qed.

(** What the answers to the handlers of one [execute] lead to. *)
Lemma execute_joins (fns : list reaction) (cs : list call)
    (id : option string) (done : Prog) (w : World)
    (pool : list (call * (response -> Prog)))
    (answers : list (nat * response)) :
  PAGE_LOAD_HANDLERS w = fns ->
  fns <> [] ->
  mapM (outgoing id) fns = Some cs ->
  in_turn (length pool) (length fns) answers ->
  let j := length (joins w) in
  let w0 := set_joins (joins w ++ [mkJoin (length fns) 0 []]) w in
  let st0 := state_of (run (PageLoadHandlerStore_execute id done)
                         (mkState w pool)) in
  (length answers < length fns ->
   deliver_all answers st0
   = mkState (completes j answers w0)
       (pool ++ waiting (join_callback j done)
                  (remaining (length pool) answers cs)))
  ∧ (length answers = length fns ->
     deliver_all answers st0
     = state_of (run done (mkState (completes j answers w0) pool)))
  ∧ joins (completes j answers w0) !! j
    = Some (mkJoin (length fns) (length answers)
              (omap (fun a => r_error a.2) answers)).
Proof.
  intros Hfns Hne Hcs Hturn j w0 st0. subst st0.
  rewrite (execute_outgoing _ _ _ _ _ _ Hfns Hne Hcs). simpl state_of.
  assert (Hcell : joins w0 !! j = Some (mkJoin (length fns) 0 [])).
  { subst w0 j. simpl. apply list_lookup_middle. reflexivity. }
  assert (Hlen : length cs = length fns).
  { apply length_mapM in Hcs. lia. }
  split; [| split].
  - intros Hlt. apply (deliver_all_waiting _ _ _ _ _ _ _ Hcell); simpl; try lia.
    rewrite Hlen. exact Hturn.
  - intros Heq. apply (deliver_all_done _ _ _ _ _ _ _ Hcell); simpl; try lia.
    + rewrite Hlen. exact Hturn.
    + intros Hnil. rewrite Hnil in Hlen. destruct fns; [congruence | discriminate].
  - rewrite (joins_completes _ _ _ _ Hcell). reflexivity.
Qed.


(** ** Loading the app *)

Lemma effects_completes (j : nat) (answers : list (nat * response))
    (w : World) :
  effects (completes j answers w) = effects w.
Proof.
  revert w. induction answers as [| a answers IH]; intros w; [reflexivity |].
  unfold completes; simpl. apply (IH (complete j (r_error a.2) w)).
Qed.

(** C8.  The app load handler takes the page ID of the current URL, or
    [default_page_id] of the settings when the URL has none, and executes the
    page load handlers with it: with handlers that call out, each is called
    with that ID.  The continuation it gives runs [page_fadein] and then
    [page_scroll] on the URL: at once when the store is empty, and otherwise
    when the last handler has answered, with or without an error, and not
    before. *)
Theorem onAppLoad_loads_initial_page (settings : Settings) (done : Prog)
    (fns : list reaction) (cs : list call) (w : World)
    (pool : list (call * (response -> Prog))) :
  let url := location w in
  let id := js_or (getIdFromURL url) (Some (default_page_id settings)) in
  let loaded := Update page_fadein (Update (page_scroll url) Return) in
  let j := length (joins w) in
  let w0 := set_joins (joins w ++ [mkJoin (length fns) 0 []]) w in
  let st0 := state_of (run (page_onAppLoad (Some settings) done)
                         (mkState w pool)) in
  PAGE_LOAD_HANDLERS w = fns ->
  mapM (outgoing id) fns = Some cs ->
  run (page_onAppLoad (Some settings) done) (mkState w pool)
  = run (PageLoadHandlerStore_execute id loaded) (mkState w pool)
  ∧ (fns = [] -> st0 = mkState (page_scroll url (page_fadein w)) pool)
  ∧ (fns <> [] ->
     calls st0 = pool.*1 ++ cs
     ∧ forall answers : list (nat * response),
         in_turn (length pool) (length fns) answers ->
         (length answers < length fns ->
          effects (world (deliver_all answers st0)) = effects w)
         ∧ (length answers = length fns ->
            deliver_all answers st0
            = mkState (page_scroll url (page_fadein (completes j answers w0)))
                pool)).
Proof.
  intros url id loaded j w0 st0 Hfns Hcs.
  assert (Hrun : run (page_onAppLoad (Some settings) done) (mkState w pool)
                 = run (PageLoadHandlerStore_execute id loaded)
                     (mkState w pool)).
  { unfold page_onAppLoad. cbn [run world]. subst id url. unfold js_or.
    destruct (blank (getIdFromURL (location w))); reflexivity. }
  split; [exact Hrun |]. subst st0. rewrite Hrun. split.
  - intros Hnil. rewrite execute_nothing by (simpl; congruence). reflexivity.
  - intros Hne. split.
    + rewrite (execute_outgoing _ _ _ _ _ _ Hfns Hne Hcs).
      unfold calls, waiting; simpl. rewrite fmap_app, <- list_fmap_compose.
      f_equal. apply list_fmap_id.
    + intros answers Hturn.
      destruct (execute_joins _ _ _ loaded _ _ _ Hfns Hne Hcs Hturn)
        as (Hbefore & Hafter & _).
      split.
      * intros Hlt. rewrite (Hbefore Hlt). simpl.
        rewrite effects_completes. reflexivity.
      * intros Heq. rewrite (Hafter Heq). reflexivity.
Qed.

(** ** What the module does to the Page Load Handler store *)

Section Respects.

Variable R : World -> World -> Prop.
Hypothesis R_preorder : PreOrder R.
Hypothesis R_frame :
  forall w w', PAGE_LOAD_HANDLERS w' = PAGE_LOAD_HANDLERS w -> R w w'.

Lemma run_related (p : Prog) :
  respects R p ->
  forall st, R (world st) (world (state_of (run p st))).
Proof.
  induction 1 as [| f k Hf Hk IH | k Hk IH | c k Hk IH | p q Hp IHp Hq IHq | e];
    intros st; simpl.
  - reflexivity.
  - etransitivity; [apply Hf |]. apply (IH (mkState (f (world st)) (pending st))).
  - apply IH.
  - reflexivity.
  - specialize (IHp st). destruct (run p st) as [st' | e st']; simpl in *.
    + etransitivity; [exact IHp | apply IHq].
    + exact IHp.
  - reflexivity.
Qed.

Lemma run_callbacks (p : Prog) :
  respects R p ->
  forall st, callbacks_respect R st ->
             callbacks_respect R (state_of (run p st)).
Proof.
  unfold callbacks_respect.
  induction 1 as [| f k Hf Hk IH | k Hk IH | c k Hk IH | p q Hp IHp Hq IHq | e];
    intros st Hst; simpl.
  - exact Hst.
  - apply (IH (mkState (f (world st)) (pending st))). exact Hst.
  - apply IH, Hst.
  - apply Forall_app. split; [exact Hst |]. repeat constructor. exact Hk.
  - specialize (IHp st Hst). destruct (run p st) as [st' | e st']; simpl in *.
    + apply IHq, IHp.
    + exact IHp.
  - exact Hst.
Qed.

Lemma deliver_related (i : nat) (r : response) (st : State) :
  callbacks_respect R st ->
  R (world st) (world (state_of (deliver i r st)))
  ∧ callbacks_respect R (state_of (deliver i r st)).
Proof.
  intros Hst. unfold deliver.
  destruct (pending st !! i) as [[c k] |] eqn:Hi; simpl.
  - assert (Hk : respects R (k r)).
    { unfold callbacks_respect in Hst. rewrite Forall_lookup in Hst.
      apply (Hst _ _ Hi). }
    split.
    + apply (run_related _ Hk (mkState (world st) (delete i (pending st)))).
    + apply (run_callbacks _ Hk). unfold callbacks_respect; simpl.
      apply Forall_delete, Hst.
  - split; [reflexivity | exact Hst].
Qed.

Ltac frame := intros; apply R_frame; reflexivity.

Lemma respects_applyPageHandler (handler : value) (id : string)
    (done : option Error -> option node -> Prog) :
  (forall e x, respects R (done e x)) ->
  respects R (page_applyPageHandler handler id done).
Proof.
  intros Hdone. destruct handler; simpl;
    try (constructor; [frame | apply Hdone]);
    constructor; intros r; apply Hdone.
Qed.

Lemma respects_getPageElement (id : string)
    (done : option Error -> option node -> Prog) :
  (forall e x, respects R (done e x)) ->
  respects R (page_getPageElement id done).
Proof.
  intros Hdone. constructor. intros w; simpl.
  destruct (truthy _); [apply respects_applyPageHandler |]; apply Hdone.
Qed.

Lemma respects_getErrorPageElement (error : Error)
    (done : option Error -> option node -> Prog) :
  (forall e x, respects R (done e x)) ->
  respects R (page_getErrorPageElement error done).
Proof.
  intros Hdone. constructor. intros w.
  destruct (page_SETTINGS w); constructor.
  intros r. destruct (r_error r); apply Hdone.
Qed.

Lemma respects_setPageElement_loaded (containerElement : nat)
    (done : option Error -> option node -> Prog) :
  (forall e x, respects R (done e x)) ->
  forall e x, respects R (page_setPageElement_loaded containerElement done e x).
Proof.
  intros Hdone [e |] x; simpl.
  - constructor; [frame |]. apply respects_getErrorPageElement.
    intros [e' |] y; [apply Hdone |].
    constructor; [frame |]. constructor; [| apply Hdone].
    intros w. destruct y; apply R_frame; reflexivity.
  - constructor; [frame |]. constructor; [| apply Hdone].
    intros w. destruct x; apply R_frame; reflexivity.
Qed.

Lemma respects_setPageElement (containerElement : nat) (id : string)
    (done : option Error -> option node -> Prog) :
  (forall e x, respects R (done e x)) ->
  respects R (page_setPageElement containerElement id done).
Proof.
  intros Hdone. apply respects_getPageElement.
  apply respects_setPageElement_loaded, Hdone.
Qed.

Lemma respects_apply_reaction (fn : reaction) (id : option string)
    (next : option Error -> Prog) :
  (forall e, respects R (next e)) ->
  respects R (apply_reaction fn id next).
Proof.
  intros Hnext. destruct fn as [| context | n]; simpl.
  - constructor. intros r. apply Hnext.
  - unfold page_block_onPageLoad.
    destruct (nonblank _) as [id' |].
    + apply respects_setPageElement. intros [e |] x; simpl; [apply Hnext |].
      constructor. intros r. apply Hnext.
    + constructor; [frame | apply Hnext].
  - constructor. intros r. apply Hnext.
Qed.

Lemma respects_execute (id : option string) (done : Prog) :
  respects R done ->
  respects R (PageLoadHandlerStore_execute id done).
Proof.
  intros Hdone. constructor. intros w.
  destruct (PAGE_LOAD_HANDLERS w) as [| fn fns]; [exact Hdone |].
  unfold applyEach. constructor. intros w'. constructor; [frame |].
  generalize (fn :: fns). intros l.
  induction l as [| fn' l IH]; simpl; constructor; [| exact IH].
  apply respects_apply_reaction. intros e.
  constructor; [frame |]. constructor. intros w''.
  destruct (all_completed _ w''); [exact Hdone | constructor].
Qed.

Lemma respects_loaded (url : string) :
  respects R (Update (page_scroll url) Return).
Proof.
  constructor; [| constructor]. intros w. apply R_frame.
  unfold page_scroll. destruct (existsb _ _); reflexivity.
Qed.

Lemma respects_onAppLoad (settings : option Settings) (done : Prog) :
  respects R (page_onAppLoad settings done).
Proof.
  constructor. intros w.
  assert (Hloaded : respects R (Update page_fadein
                                  (Update (page_scroll (location w)) Return))).
  { constructor; [frame | apply respects_loaded]. }
  cbv beta zeta.
  destruct (blank (getIdFromURL (location w))); [destruct settings |];
    try apply respects_execute; try exact Hloaded; constructor.
Qed.

Lemma respects_onHashChange : respects R page_onHashChange.
Proof.
  constructor. intros w. apply respects_execute, respects_loaded.
Qed.

Lemma respects_note (e : option Error) (x : option node) :
  respects R (note e x).
Proof. constructor; [frame | constructor]. Qed.

End Respects.

Lemma handlers_grow_preorder : PreOrder handlers_grow.
Proof.
  split.
  - intros w. unfold handlers_grow. reflexivity.
  - intros w1 w2 w3 H12 H23. unfold handlers_grow in *.
    etransitivity; eassumption.
Qed.

Lemma handlers_grow_frame (w w' : World) :
  PAGE_LOAD_HANDLERS w' = PAGE_LOAD_HANDLERS w -> handlers_grow w w'.
Proof. intros H. unfold handlers_grow. rewrite H. reflexivity. Qed.

Lemma handlers_stay_preorder : PreOrder handlers_stay.
Proof.
  split.
  - intros w. reflexivity.
  - intros w1 w2 w3 H12 H23. unfold handlers_stay in *. congruence.
Qed.

Lemma handlers_stay_frame (w w' : World) :
  PAGE_LOAD_HANDLERS w' = PAGE_LOAD_HANDLERS w -> handlers_stay w w'.
Proof. intros H. exact H. Qed.

Lemma handlers_after_add (type : string) (handler : value) (w : World) :
  PAGE_LOAD_HANDLERS (page_HandlerStore_add type handler w)
  = PAGE_LOAD_HANDLERS w.
Proof.
  unfold page_HandlerStore_add. destruct (truthy _); reflexivity.
Qed.

Lemma handlers_after_addHandlers (handlers : list (string * value))
    (w : World) :
  PAGE_LOAD_HANDLERS (page_HandlerStore_addHandlers handlers w)
  = PAGE_LOAD_HANDLERS w.
Proof.
  revert w. unfold page_HandlerStore_addHandlers.
  induction handlers as [| th handlers IH]; intros w; simpl; [reflexivity |].
  rewrite IH. apply handlers_after_add.
Qed.

Lemma handlers_grow_add (fn : reaction) (w : World) :
  handlers_grow w (PageLoadHandlerStore_add fn w).
Proof. unfold handlers_grow; simpl. apply prefix_app_r. reflexivity. Qed.

Lemma respects_page_block (context : block_Context)
    (done : option Error -> option node -> Prog) :
  (forall e x, respects handlers_grow (done e x)) ->
  respects handlers_grow (page_block context done).
Proof.
  intros Hdone. constructor; [apply handlers_grow_add |].
  constructor. intros w. destruct (nonblank _).
  - apply respects_setPageElement; [apply handlers_grow_frame | exact Hdone].
  - constructor; [| apply Hdone]. intros w'. apply handlers_grow_frame.
    reflexivity.
Qed.

Lemma respects_onModuleLoad (done : option Error -> Prog) :
  (forall e, respects handlers_grow (done e)) ->
  respects handlers_grow (page_onModuleLoad done).
Proof.
  intros Hdone. constructor. intros r. destruct (r_error r); simpl.
  - constructor; [| apply Hdone]. intros w. apply handlers_grow_frame.
    reflexivity.
  - repeat (constructor;
            [intros w;
             first [apply handlers_grow_add
                   | apply handlers_grow_frame; reflexivity] |]).
    apply Hdone.
Qed.

Lemma respects_entry (e : event) : respects handlers_grow (entry e).
Proof.
  pose proof handlers_grow_preorder as Hpre.
  pose proof handlers_grow_frame as Hframe.
  destruct e; simpl.
  - apply respects_onModuleLoad. intros e. apply respects_note, Hframe.
  - constructor. intros w.
    induction (APP_LOAD_HANDLERS w) as [| [settings] l IH]; simpl;
      constructor; [| exact IH].
    apply respects_onAppLoad; assumption.
  - constructor; [intros w; apply Hframe; reflexivity |].
    apply respects_onHashChange; assumption.
  - apply respects_page_block. intros e x. apply respects_note, Hframe.
  - apply respects_setPageElement; [exact Hframe |].
    intros e x. apply respects_note, Hframe.
  - constructor; [| constructor]. intros w. apply Hframe, handlers_after_add.
  - constructor; [| constructor]. intros w.
    apply Hframe, handlers_after_addHandlers.
  - constructor; [| constructor]. intros w. apply handlers_grow_add.
  - constructor; [| constructor]. intros w. apply Hframe. reflexivity.
  - apply respects_execute; [exact Hframe | constructor].
  - constructor.
Qed.

Lemma fire_grows (e : event) (st : State) :
  callbacks_respect handlers_grow st ->
  handlers_grow (world st) (world (fire e st))
  ∧ callbacks_respect handlers_grow (fire e st).
Proof.
  intros Hst.
  assert (Hrun : handlers_grow (world st) (world (state_of (run (entry e) st)))
                 ∧ callbacks_respect handlers_grow
                     (state_of (run (entry e) st))).
  { split.
    - apply run_related; [apply handlers_grow_preorder | apply respects_entry].
    - apply run_callbacks; [apply respects_entry | exact Hst]. }
  destruct e; try exact Hrun.
  apply deliver_related; [apply handlers_grow_preorder | exact Hst].
Qed.

Lemma fire_all_grows (es : list event) :
  forall st, callbacks_respect handlers_grow st ->
             handlers_grow (world st) (world (fire_all es st))
             ∧ callbacks_respect handlers_grow (fire_all es st).
Proof.
  induction es as [| e es IH]; intros st Hst; simpl.
  - split; [apply handlers_grow_preorder | exact Hst].
  - destruct (fire_grows e st Hst) as [Hgrow Hcb].
    destruct (IH _ Hcb) as [Hgrow' Hcb'].
    split; [| exact Hcb'].
    pose proof handlers_grow_preorder. etransitivity; eassumption.
Qed.

(** [page_block] pushes its handler, and nothing else of it touches the
    store. *)
Lemma page_block_adds (context : block_Context)
    (done : option Error -> option node -> Prog) (st : State) :
  (forall e x, respects handlers_stay (done e x)) ->
  PAGE_LOAD_HANDLERS (world (state_of (run (page_block context done) st)))
  = PAGE_LOAD_HANDLERS (world st) ++ [PageBlockHandler context].
Proof.
  intros Hdone. unfold page_block. cbn [run].
  match goal with
  | |- PAGE_LOAD_HANDLERS (world (state_of (run ?p ?st'))) = _ =>
      assert (Hp : respects handlers_stay p);
      [| exact (run_related _ handlers_stay_preorder p Hp st')]
  end.
  destruct (nonblank _).
  - apply respects_setPageElement; [apply handlers_stay_frame | exact Hdone].
  - constructor; [| apply Hdone]. intros w'. reflexivity.
Qed.

(** ** Moving to another page *)

Lemma start_each_navigation (fns : list reaction) (id : string)
    (handler : value) (c : call) (next : option Error -> Prog) (w : World)
    (pool : list (call * (response -> Prog))) :
  id <> "" ->
  page_HandlerStore_get (getContentType id) w = handler ->
  truthy handler = true ->
  handler_call handler id = Some c ->
  run (start_each fns (Some id) next) (mkState w pool)
  = Returned (mkState w (pool ++ (started id c next <$> fns))).
Proof.
  intros Hid Hget Htruthy Hcall. revert pool.
  induction fns as [| fn fns IH]; intros pool; simpl.
  - rewrite app_nil_r. reflexivity.
  - assert (Hrun : run (apply_reaction fn (Some id) next) (mkState w pool)
                   = Returned (mkState w (pool ++ [started id c next fn]))).
    { destruct fn as [| context | n]; try reflexivity.
      simpl. unfold page_block_onPageLoad, js_or, nonblank; simpl.
      apply String.eqb_neq in Hid. rewrite Hid; simpl. rewrite Hid.
      unfold page_setPageElement.
      apply (getPageElement_calls _ _ _ _ _ _ Hget Htruthy Hcall). }
    rewrite Hrun, IH, <- app_assoc. reflexivity.
Qed.

(** The [hashchange] listener, when the new URL has a page ID whose page
    handler is called with a callback. *)
Lemma onHashChange_starts (url id : string) (handler : value) (c : call)
    (st : State) :
  getIdFromURL url = Some id ->
  id <> "" ->
  page_HandlerStore_get (getContentType id) (world st) = handler ->
  truthy handler = true ->
  handler_call handler id = Some c ->
  exists (w1 : World) (next : option Error -> Prog),
    fire (HashChange url) st
    = mkState w1
        (pending st ++ (started id c next <$> PAGE_LOAD_HANDLERS (world st))).
Proof.
  intros Hurl Hid Hget Htruthy Hcall.
  unfold fire, entry, page_onHashChange, PageLoadHandlerStore_execute.
  cbn [run world pending set_location location PAGE_LOAD_HANDLERS].
  rewrite Hurl.
  destruct (PAGE_LOAD_HANDLERS (world st)) as [| fn fns] eqn:Hfns.
  - exists (page_scroll url (set_location url (world st))), (fun _ => Return).
    simpl. rewrite app_nil_r. reflexivity.
  - unfold applyEach. cbn [run world pending].
    eexists _, _.
    rewrite (start_each_navigation _ _ handler c); try assumption; reflexivity.
Qed.

(** When the page handler called for a handler of [page_block] answers with
    an element, the element of that block holds it alone. *)
Lemma navigation_mounts (url id : string) (handler : value) (c : call)
    (context : block_Context) (i : nat) (el : node) (st : State) :
  getIdFromURL url = Some id ->
  id <> "" ->
  page_HandlerStore_get (getContentType id) (world st) = handler ->
  truthy handler = true ->
  handler_call handler id = Some c ->
  PAGE_LOAD_HANDLERS (world st) !! i = Some (PageBlockHandler context) ->
  let st1 := fire (HashChange url) st in
  calls st1
  = calls st ++ (started_call id c <$> PAGE_LOAD_HANDLERS (world st))
  ∧ contents (element context)
      (world (fire (Answer (length (pending st) + i) (succeeded (Some el)))
                st1))
    = [el].
Proof.
  intros Hurl Hid Hget Htruthy Hcall Hi st1. subst st1.
  destruct (onHashChange_starts _ _ _ _ st Hurl Hid Hget Htruthy Hcall)
    as (w1 & next & ->).
  split.
  - unfold calls; simpl. rewrite fmap_app, <- list_fmap_compose. reflexivity.
  - unfold fire, deliver; simpl.
    rewrite lookup_app_r by lia.
    replace (length (pending st) + i - length (pending st)) with i by lia.
    rewrite list_lookup_fmap, Hi; simpl.
    apply contents_append_empty.
Qed.

Lemma run_calm (c : nat) (p : Prog) :
  calm c p ->
  forall st, is_Some (page_SETTINGS (world st)) ->
    exists st', run p st = Returned st'
                ∧ is_Some (page_SETTINGS (world st'))
                ∧ (contents c (world st) = [] -> contents c (world st') = []).
Proof.
  induction 1 as [| f k Hf Hk IH | k Hk IH | cl k | p q Hp IHp Hq IHq];
    intros st Hst; simpl.
  - exists st. auto.
  - destruct (Hf _ Hst) as [Hset Hkeep].
    destruct (IH (mkState (f (world st)) (pending st)) Hset)
      as (st' & Hrun & Hset' & Hkeep').
    exists st'. simpl in Hkeep'. auto.
  - apply (IH _ Hst st Hst).
  - eexists. split; [reflexivity |]. simpl. auto.
  - destruct (IHp st Hst) as (st1 & -> & Hset1 & Hkeep1).
    destruct (IHq st1 Hset1) as (st2 & Hrun2 & Hset2 & Hkeep2).
    exists st2. auto.
Qed.

Lemma contents_empty (c c' : nat) (w : World) :
  contents c w = [] -> contents c (empty c' w) = [].
Proof.
  intros H. unfold contents, empty in *; simpl.
  destruct (decide (c' = c)) as [-> | Hne].
  - rewrite lookup_insert_eq. reflexivity.
  - rewrite lookup_insert_ne by exact Hne. exact H.
Qed.

Ltac calm_step :=
  apply calm_Update;
  [let w := fresh "w" in
   let Hw := fresh "Hw" in
   let Hc := fresh "Hc" in
   intros w Hw; split; [exact Hw | try (intros Hc; exact Hc)] |].

Lemma calm_getErrorPageElement (c : nat) (error : Error)
    (done : option Error -> option node -> Prog) :
  calm c (page_getErrorPageElement error done).
Proof.
  apply calm_Read. intros w [settings Hw]. rewrite Hw. apply calm_Call.
Qed.

Lemma calm_applyPageHandler (c c' : nat) (handler : value) (id : string)
    (done : option Error -> option node -> Prog) :
  calm c (page_applyPageHandler handler id
            (page_setPageElement_loaded c' done)).
Proof.
  destruct handler; simpl; try apply calm_Call;
    calm_step; calm_step; apply calm_getErrorPageElement.
Qed.

Lemma calm_apply_reaction (c : nat) (fn : reaction) (id : option string)
    (next : option Error -> Prog) :
  (forall e, calm c (next e)) ->
  calm c (apply_reaction fn id next).
Proof.
  intros Hnext. destruct fn as [| context | n]; simpl; try apply calm_Call.
  unfold page_block_onPageLoad. destruct (nonblank _) as [id' |].
  - apply calm_Read. intros w Hw. cbv zeta.
    destruct (truthy _); [apply calm_applyPageHandler |].
    simpl. calm_step; [apply contents_empty |].
    calm_step. apply calm_Call.
  - calm_step; [apply contents_empty | apply Hnext].
Qed.

Lemma calm_start_each (c : nat) (fns : list reaction) (id : option string)
    (next : option Error -> Prog) :
  (forall e, calm c (next e)) ->
  calm c (start_each fns id next).
Proof.
  intros Hnext. induction fns as [| fn fns IH]; simpl; constructor;
    [apply calm_apply_reaction, Hnext | exact IH].
Qed.

Lemma calm_join_callback (c j : nat) (done : Prog) (e : option Error) :
  calm c done -> calm c (join_callback j done e).
Proof.
  intros Hdone. unfold join_callback. calm_step.
  constructor. intros w Hw. destruct (all_completed j w);
    [exact Hdone | constructor].
Qed.

Lemma calm_scroll (c : nat) (url : string) :
  calm c (Update (page_scroll url) Return).
Proof.
  constructor; [| constructor]. intros w Hw. unfold page_scroll.
  destruct (existsb _ _); split; try assumption; intros H; exact H.
Qed.

Lemma run_start_each_app (l1 l2 : list reaction) (id : option string)
    (next : option Error -> Prog) (st : State) :
  run (start_each (l1 ++ l2) id next) st
  = match run (start_each l1 id next) st with
    | Returned st' => run (start_each l2 id next) st'
    | Thrown e st' => Thrown e st'
    end.
Proof.
  revert st. induction l1 as [| fn l1 IH]; intros st; simpl; [reflexivity |].
  destruct (run (apply_reaction fn id next) st) as [st' | e st'];
    [apply IH | reflexivity].
Qed.

(** A handler of [page_block] that finds no page ID, neither in the URL nor
    in its context, leaves its element empty. *)
Lemma navigation_empties (url : string) (context : block_Context) (i : nat)
    (st : State) :
  is_Some (page_SETTINGS (world st)) ->
  PAGE_LOAD_HANDLERS (world st) !! i = Some (PageBlockHandler context) ->
  blank (getIdFromURL url) = true ->
  blank (getId context) = true ->
  contents (element context) (world (fire (HashChange url) st)) = [].
Proof.
  intros Hset Hi Hurl Hctx.
  unfold fire, entry, page_onHashChange, PageLoadHandlerStore_execute.
  cbn [run world pending set_location location PAGE_LOAD_HANDLERS].
  apply list_elem_of_split_length in Hi as (l1 & l2 & Hfns & _).
  rewrite Hfns. unfold applyEach.
  destruct (l1 ++ PageBlockHandler context :: l2) as [| fn fns] eqn:Hl;
    [destruct l1; discriminate |].
  rewrite <- Hl. cbn [run world pending].
  set (next := join_callback _ _).
  assert (Hnext : forall e, calm (element context) (next e)).
  { intros e. apply calm_join_callback, calm_scroll. }
  rewrite run_start_each_app.
  match goal with
  | |- context [run (start_each l1 _ next) ?s] =>
      destruct (run_calm _ _
                  (calm_start_each (element context) l1
                     (getIdFromURL url) next Hnext) s)
        as (sta & -> & Hseta & _); [exact Hset |]
  end.
  simpl. unfold page_block_onPageLoad, js_or, nonblank.
  rewrite Hurl, Hctx. cbn [run world pending].
  match goal with
  | |- context [run (next None) ?s] =>
      destruct (run_calm _ _ (Hnext None) s)
        as (stb & -> & Hsetb & Hkeepb); [exact Hseta |]
  end.
  destruct (run_calm _ _
              (calm_start_each (element context) l2
                 (getIdFromURL url) next Hnext) stb Hsetb)
    as (stc & -> & _ & Hkeepc).
  simpl. apply Hkeepc, Hkeepb. simpl.
  unfold contents, empty; simpl. rewrite lookup_insert_eq. reflexivity.
Qed.

Lemma fire_all_app (es1 es2 : list event) (st : State) :
  fire_all (es1 ++ es2) st = fire_all es2 (fire_all es1 st).
Proof. unfold fire_all. apply fold_left_app. Qed.

Lemma fire_all_cons (e : event) (es : list event) (st : State) :
  fire_all (e :: es) st = fire_all es (fire e st).
Proof. reflexivity. Qed.

(** C10.  [page_block] pushes one handler onto [PAGE_LOAD_HANDLERS], and
    nothing that happens on the page takes a handler away or moves it: the
    store after any events begins with the store before them.  So the
    handler of a block that was expanded is in the store ever after, and a
    later move to another page calls it like every other handler.  When the
    URL has a page ID and its page handler answers with an element, the
    element of the block holds that element alone; when neither the URL nor
    the context has a page ID, the element of the block is empty. *)
Theorem page_block_handlers_are_kept (context : block_Context)
    (es1 es2 : list event) (w : World) :
  let st := fire_all (es1 ++ ExpandPageBlock context :: es2) (mkState w []) in
  (forall (done : option Error -> option node -> Prog) (st0 : State),
      (forall e x, respects handlers_stay (done e x)) ->
      PAGE_LOAD_HANDLERS (world (state_of (run (page_block context done) st0)))
      = PAGE_LOAD_HANDLERS (world st0) ++ [PageBlockHandler context])
  ∧ (forall (es : list event) (w0 : World),
        PAGE_LOAD_HANDLERS w0
        `prefix_of` PAGE_LOAD_HANDLERS (world (fire_all es (mkState w0 []))))
  ∧ exists i : nat,
      PAGE_LOAD_HANDLERS (world st) !! i = Some (PageBlockHandler context)
      ∧ (forall (url id : string) (handler : value) (c : call) (el : node),
            getIdFromURL url = Some id ->
            id <> "" ->
            page_HandlerStore_get (getContentType id) (world st) = handler ->
            truthy handler = true ->
            handler_call handler id = Some c ->
            let st1 := fire (HashChange url) st in
            calls st1
            = calls st ++ (started_call id c <$> PAGE_LOAD_HANDLERS (world st))
            ∧ contents (element context)
                (world (fire (Answer (length (pending st) + i)
                                (succeeded (Some el))) st1))
              = [el])
      ∧ (forall url : string,
            is_Some (page_SETTINGS (world st)) ->
            blank (getIdFromURL url) = true ->
            blank (getId context) = true ->
            contents (element context) (world (fire (HashChange url) st))
            = []).
Proof.
  intros st.
  assert (Hstart : forall w0, callbacks_respect handlers_grow (mkState w0 [])).
  { intros w0. constructor. }
  split.
  { intros done st0 Hdone. apply page_block_adds, Hdone. }
  split.
  { intros es w0. apply (fire_all_grows es (mkState w0 []) (Hstart w0)). }
  subst st. rewrite fire_all_app, fire_all_cons.
  destruct (fire_all_grows es1 _ (Hstart w)) as [_ Hcb1].
  set (sta := fire_all es1 (mkState w [])) in *.
  destruct (fire_grows (ExpandPageBlock context) sta Hcb1) as [_ Hcb2].
  destruct (fire_all_grows es2 _ Hcb2) as [Hgrow _].
  set (stb := fire (ExpandPageBlock context) sta) in *.
  set (st := fire_all es2 stb) in *.
  exists (length (PAGE_LOAD_HANDLERS (world sta))).
  assert (Hi : PAGE_LOAD_HANDLERS (world st)
                 !! length (PAGE_LOAD_HANDLERS (world sta))
               = Some (PageBlockHandler context)).
  { apply (prefix_lookup_Some _ _ _ _ (list_lookup_middle _ [] _ _ eq_refl)).
    unfold handlers_grow in Hgrow. subst stb. unfold fire, entry in Hgrow.
    rewrite page_block_adds in Hgrow; [exact Hgrow |].
    intros e x. apply respects_note, handlers_stay_frame. }
  split; [exact Hi |]. split.
  - intros url id handler c el Hurl Hid Hget Htruthy Hcall.
    exact (navigation_mounts _ _ _ _ _ _ el _ Hurl Hid Hget Htruthy Hcall Hi).
  - intros url Hset Hblank Hctx.
    exact (navigation_empties _ _ _ _ Hset Hi Hblank Hctx).
Qed.

(** * More of the module *)

(** ** Registering page handlers *)

Lemma add_other (type type' : string) (handler : value) (w : World) :
  type' <> type ->
  page_HandlerStore_get type' (page_HandlerStore_add type handler w)
  = page_HandlerStore_get type' w.
Proof.
  intros Hne. unfold page_HandlerStore_add.
  destruct (truthy (page_HandlerStore_get type w)); [reflexivity |].
  unfold page_HandlerStore_get; simpl.
  rewrite lookup_insert_ne by congruence. reflexivity.
Qed.

Lemma add_keeps (type type' : string) (handler : value) (w : World) :
  truthy (page_HandlerStore_get type' w) = true ->
  page_HandlerStore_get type' (page_HandlerStore_add type handler w)
  = page_HandlerStore_get type' w.
Proof.
  intros Htruthy. destruct (decide (type' = type)) as [-> | Hne].
  - rewrite add_taken by exact Htruthy. reflexivity.
  - apply add_other, Hne.
Qed.

(** X1.  [add] on a type that has no handler yet, or a falsy one: [get]
    returns the new handler for that type and what it returned before for
    every other type, and nothing is reported. *)
Theorem add_then_get (type type' : string) (handler : value) (w : World) :
  truthy (page_HandlerStore_get type w) = false ->
  let w' := page_HandlerStore_add type handler w in
  page_HandlerStore_get type w' = handler
  ∧ (type' <> type ->
     page_HandlerStore_get type' w' = page_HandlerStore_get type' w)
  ∧ strict_errors w' = strict_errors w.
Proof.
  intros Hfree w'. subst w'. split; [| split].
  - rewrite add_free by exact Hfree. apply get_after_insert.
  - apply add_other.
  - rewrite add_free by exact Hfree. reflexivity.
Qed.

Lemma addHandlers_cons (th : string * value)
    (handlers : list (string * value)) (w : World) :
  page_HandlerStore_addHandlers (th :: handlers) w
  = page_HandlerStore_addHandlers handlers
      (page_HandlerStore_add th.1 th.2 w).
Proof. reflexivity. Qed.

Lemma addHandlers_other (handlers : list (string * value)) (type : string) :
  forall w : World,
    type ∉ handlers.*1 ->
    page_HandlerStore_get type (page_HandlerStore_addHandlers handlers w)
    = page_HandlerStore_get type w.
Proof.
  induction handlers as [| th handlers IH]; intros w Hnotin; [reflexivity |].
  rewrite addHandlers_cons. simpl in Hnotin.
  apply not_elem_of_cons in Hnotin as [Hne Hnotin].
  rewrite IH by exact Hnotin. apply add_other, Hne.
Qed.

(** X2.  [addHandlers] on handlers of different types, none of which has a
    truthy handler in the store: every one of them is registered, nothing is
    reported, and the other types are as they were. *)
Theorem addHandlers_registers_all (handlers : list (string * value)) :
  forall w : World,
    NoDup handlers.*1 ->
    Forall (fun th => truthy (page_HandlerStore_get th.1 w) = false)
      handlers ->
    let w' := page_HandlerStore_addHandlers handlers w in
    (forall type handler,
        (type, handler) ∈ handlers ->
        page_HandlerStore_get type w' = handler)
    ∧ (forall type,
          type ∉ handlers.*1 ->
          page_HandlerStore_get type w' = page_HandlerStore_get type w)
    ∧ strict_errors w' = strict_errors w.
Proof.
  induction handlers as [| [t h] handlers IH]; intros w Hnodup Hfree w'.
  - repeat split. intros type handler Hin. inversion Hin.
  - subst w'. rewrite addHandlers_cons. simpl in *.
    apply NoDup_cons in Hnodup as [Hnotin Hnodup].
    apply Forall_cons in Hfree as [Hfree_t Hfree].
    simpl in Hfree_t.
    destruct (IH (page_HandlerStore_add t h w) Hnodup) as (Hall & Hother & Hrep).
    { rewrite Forall_forall in *. intros th Hin.
      rewrite add_other; [apply Hfree, Hin |].
      intros Heq. apply Hnotin. rewrite <- Heq.
      apply list_elem_of_fmap. exists th. auto. }
    split; [| split].
    + intros type handler Hin. apply elem_of_cons in Hin as [Heq | Hin].
      * injection Heq as -> ->. rewrite Hother by exact Hnotin.
        rewrite add_free by exact Hfree_t. apply get_after_insert.
      * apply Hall, Hin.
    + intros type Hnotin'. apply not_elem_of_cons in Hnotin' as [Hne Hnotin'].
      rewrite Hother by exact Hnotin'. apply add_other, Hne.
    + rewrite Hrep, add_free by exact Hfree_t. reflexivity.
Qed.

(** X3.  Whatever [addHandlers] is given, a type that has a truthy handler
    keeps it, a type that is not in the argument keeps what it has, and what
    is reported are conflict errors of types of the argument, in the order
    of the argument. *)
Theorem addHandlers_is_safe (handlers : list (string * value)) :
  forall w : World,
    let w' := page_HandlerStore_addHandlers handlers w in
    (forall type,
        truthy (page_HandlerStore_get type w) = true ->
        page_HandlerStore_get type w' = page_HandlerStore_get type w)
    ∧ (forall type,
          type ∉ handlers.*1 ->
          page_HandlerStore_get type w' = page_HandlerStore_get type w)
    ∧ exists types : list string,
        types `sublist_of` handlers.*1
        ∧ strict_errors w'
          = strict_errors w
            ++ ((fun type => ReportError (conflict_error type)) <$> types).
Proof.
  induction handlers as [| [t h] handlers IH]; intros w w'.
  - split; [reflexivity |]. split; [reflexivity |].
    exists []. split; [constructor |]. simpl. rewrite app_nil_r. reflexivity.
  - subst w'. rewrite addHandlers_cons. simpl.
    destruct (IH (page_HandlerStore_add t h w)) as (Hkeep & _ & types & Hsub & Hrep).
    split; [| split].
    + intros type Htruthy. rewrite Hkeep; rewrite add_keeps by exact Htruthy;
        [reflexivity | exact Htruthy].
    + intros type Hnotin. apply (addHandlers_other ((t, h) :: handlers)), Hnotin.
    + destruct (truthy (page_HandlerStore_get t w)) eqn:Ht.
      * exists (t :: types). split; [constructor; exact Hsub |].
        rewrite Hrep, add_taken by exact Ht. simpl.
        rewrite <- app_assoc. reflexivity.
      * exists types. split; [constructor; exact Hsub |].
        rewrite Hrep, add_free by exact Ht. reflexivity.
Qed.

(** ** What lasts for the lifetime of the page *)

Lemma same_stores_preorder : PreOrder same_stores.
Proof.
  split.
  - intros w. repeat split.
  - intros w1 w2 w3 (H1 & H2 & H3 & H4 & H5 & H6) (K1 & K2 & K3 & K4 & K5 & K6).
    unfold same_stores. repeat split; congruence.
Qed.

Lemma respects_weaken (R R' : World -> World -> Prop) (p : Prog) :
  (forall w w', R w w' -> R' w w') ->
  respects R p -> respects R' p.
Proof.
  intros HR. induction 1; constructor; auto.
Qed.

Ltac stores := intros; repeat split.

Lemma stores_applyPageHandler (handler : value) (id : string)
    (done : option Error -> option node -> Prog) :
  (forall e x, respects same_stores (done e x)) ->
  respects same_stores (page_applyPageHandler handler id done).
Proof.
  intros Hdone. destruct handler; simpl;
    try (constructor; [stores | apply Hdone]);
    constructor; intros r; apply Hdone.
Qed.

Lemma stores_getErrorPageElement (error : Error)
    (done : option Error -> option node -> Prog) :
  (forall e x, respects same_stores (done e x)) ->
  respects same_stores (page_getErrorPageElement error done).
Proof.
  intros Hdone. constructor. intros w.
  destruct (page_SETTINGS w); constructor.
  intros r. destruct (r_error r); apply Hdone.
Qed.

Lemma stores_setPageElement_loaded (containerElement : nat)
    (done : option Error -> option node -> Prog) :
  (forall e x, respects same_stores (done e x)) ->
  forall e x,
    respects same_stores (page_setPageElement_loaded containerElement done e x).
Proof.
  intros Hdone [e |] x; simpl.
  - constructor; [stores |]. apply stores_getErrorPageElement.
    intros [e' |] y; [apply Hdone |].
    constructor; [stores |]. constructor; [| apply Hdone].
    intros w. destruct y; repeat split.
  - constructor; [stores |]. constructor; [| apply Hdone].
    intros w. destruct x; repeat split.
Qed.

Lemma stores_getPageElement (id : string)
    (done : option Error -> option node -> Prog) :
  (forall e x, respects same_stores (done e x)) ->
  respects same_stores (page_getPageElement id done).
Proof.
  intros Hdone. constructor. intros w; simpl.
  destruct (truthy _); [apply stores_applyPageHandler |]; apply Hdone.
Qed.

Lemma stores_setPageElement (containerElement : nat) (id : string)
    (done : option Error -> option node -> Prog) :
  (forall e x, respects same_stores (done e x)) ->
  respects same_stores (page_setPageElement containerElement id done).
Proof.
  intros Hdone. apply stores_getPageElement.
  apply stores_setPageElement_loaded, Hdone.
Qed.

Lemma stores_apply_reaction (fn : reaction) (id : option string)
    (next : option Error -> Prog) :
  (forall e, respects same_stores (next e)) ->
  respects same_stores (apply_reaction fn id next).
Proof.
  intros Hnext. destruct fn as [| context | n]; simpl.
  - constructor. intros r. apply Hnext.
  - unfold page_block_onPageLoad.
    destruct (nonblank _) as [id' |].
    + apply stores_setPageElement. intros [e |] x; simpl; [apply Hnext |].
      constructor. intros r. apply Hnext.
    + constructor; [stores | apply Hnext].
  - constructor. intros r. apply Hnext.
Qed.

Lemma stores_execute (id : option string) (done : Prog) :
  respects same_stores done ->
  respects same_stores (PageLoadHandlerStore_execute id done).
Proof.
  intros Hdone. constructor. intros w.
  destruct (PAGE_LOAD_HANDLERS w) as [| fn fns]; [exact Hdone |].
  unfold applyEach. constructor. intros w'. constructor; [stores |].
  generalize (fn :: fns). intros l.
  induction l as [| fn' l IH]; simpl; constructor; [| exact IH].
  apply stores_apply_reaction. intros e.
  constructor; [stores |]. constructor. intros w''.
  destruct (all_completed _ w''); [exact Hdone | constructor].
Qed.

Lemma stores_scroll (url : string) :
  respects same_stores (Update (page_scroll url) Return).
Proof.
  constructor; [| constructor]. intros w.
  unfold page_scroll. destruct (existsb _ _); repeat split.
Qed.

Lemma stores_onAppLoad (settings : option Settings) (done : Prog) :
  respects same_stores (page_onAppLoad settings done).
Proof.
  constructor. intros w.
  assert (Hloaded : respects same_stores
                      (Update page_fadein
                         (Update (page_scroll (location w)) Return))).
  { constructor; [stores | apply stores_scroll]. }
  cbv beta zeta.
  destruct (blank (getIdFromURL (location w))); [destruct settings |];
    try apply stores_execute; try exact Hloaded; constructor.
Qed.

Lemma stores_note (e : option Error) (x : option node) :
  respects same_stores (note e x).
Proof. constructor; [stores | constructor]. Qed.

Section Lifetime.

Variable R : World -> World -> Prop.
Hypothesis R_preorder : PreOrder R.
Hypothesis R_same : forall w w', same_stores w w' -> R w w'.
Hypothesis R_add_page_handler :
  forall type handler w, R w (page_HandlerStore_add type handler w).
Hypothesis R_add_load_handler :
  forall fn w, R w (PageLoadHandlerStore_add fn w).
Hypothesis R_add_load_handlers :
  forall fns w, R w (PageLoadHandlerStore_addHandlers fns w).
Hypothesis R_settings :
  forall settings w, R w (set_page_SETTINGS (Some settings) w).
Hypothesis R_block_handler :
  forall bh w, R w (set_block_HANDLERS (block_HANDLERS w ++ [bh]) w).
Hypothesis R_app_handler :
  forall settings w,
    R w (set_APP_LOAD_HANDLERS
           (APP_LOAD_HANDLERS w ++ [PageAppLoadHandler (Some settings)]) w).

Lemma lasting_addHandlers (handlers : list (string * value)) (w : World) :
  R w (page_HandlerStore_addHandlers handlers w).
Proof.
  revert w. induction handlers as [| th handlers IH]; intros w.
  - reflexivity.
  - rewrite addHandlers_cons. etransitivity; [| apply IH].
    apply R_add_page_handler.
Qed.

Lemma lasting_entry (e : event) : respects R (entry e).
Proof.
  assert (Hsame : forall p, respects same_stores p -> respects R p).
  { intros p. apply respects_weaken, R_same. }
  destruct e; simpl.
  - unfold page_onModuleLoad, page_loadSettings.
    constructor. intros r. destruct (r_error r).
    + constructor; [intros w; apply R_same; repeat split |].
      apply Hsame, stores_note.
    + constructor; [intros w; apply R_settings |].
      constructor; [intros w; apply R_block_handler |].
      constructor; [intros w; apply R_add_load_handler |].
      constructor; [intros w; apply R_app_handler |].
      apply Hsame, stores_note.
  - constructor. intros w.
    induction (APP_LOAD_HANDLERS w) as [| [settings] l IH]; simpl;
      constructor; [| exact IH].
    apply Hsame, stores_onAppLoad.
  - constructor; [intros w; apply R_same; repeat split |].
    apply Hsame. constructor. intros w. apply stores_execute, stores_scroll.
  - constructor; [intros w; apply R_add_load_handler |].
    apply Hsame. constructor. intros w. destruct (nonblank _).
    + apply stores_setPageElement, stores_note.
    + constructor; [stores | apply stores_note].
  - apply Hsame, stores_setPageElement, stores_note.
  - constructor; [| constructor]. intros w. apply R_add_page_handler.
  - constructor; [| constructor]. intros w. apply lasting_addHandlers.
  - constructor; [| constructor]. intros w. apply R_add_load_handler.
  - constructor; [| constructor]. intros w. apply R_add_load_handlers.
  - apply Hsame, stores_execute. constructor.
  - constructor.
Qed.

Lemma lasting_fire (e : event) (st : State) :
  callbacks_respect R st ->
  R (world st) (world (fire e st)) ∧ callbacks_respect R (fire e st).
Proof.
  intros Hst.
  assert (Hrun : R (world st) (world (state_of (run (entry e) st)))
                 ∧ callbacks_respect R (state_of (run (entry e) st))).
  { split.
    - apply run_related; [exact R_preorder | apply lasting_entry].
    - apply run_callbacks; [apply lasting_entry | exact Hst]. }
  destruct e; try exact Hrun.
  apply deliver_related; [exact R_preorder | exact Hst].
Qed.

Lemma lasting_fire_all (es : list event) :
  forall st, callbacks_respect R st ->
             R (world st) (world (fire_all es st))
             ∧ callbacks_respect R (fire_all es st).
Proof.
  induction es as [| e es IH]; intros st Hst.
  - split; [reflexivity | exact Hst].
  - rewrite fire_all_cons.
    destruct (lasting_fire e st Hst) as [Hstep Hcb].
    destruct (IH _ Hcb) as [Hrest Hcb'].
    split; [etransitivity; eassumption | exact Hcb'].
Qed.

End Lifetime.

(** X4.  A page type that has a truthy handler keeps that handler for the
    lifetime of the page: whatever is registered, loaded, expanded, executed
    or answered afterwards, [get] returns it. *)
Theorem registered_handler_is_permanent (es : list event) (w : World)
    (type : string) :
  truthy (page_HandlerStore_get type w) = true ->
  page_HandlerStore_get type (world (fire_all es (mkState w [])))
  = page_HandlerStore_get type w.
Proof.
  intros Htruthy.
  assert (Hframe : forall w1 w2,
             page_HANDLERS w2 = page_HANDLERS w1 -> handlers_kept w1 w2).
  { intros w1 w2 H t _. unfold page_HandlerStore_get. rewrite H. reflexivity. }
  assert (Hpre : PreOrder handlers_kept).
  { split.
    - intros w1 t _. reflexivity.
    - intros w1 w2 w3 H12 H23 t Ht.
      rewrite H23 by (rewrite H12; exact Ht). apply H12, Ht. }
  destruct (lasting_fire_all handlers_kept Hpre) with (es := es)
    (st := mkState w []) as [Hkept _].
  - intros w1 w2 (_ & H & _). apply Hframe, H.
  - intros t h w1 t' Ht'. apply add_keeps, Ht'.
  - intros fn w1. apply Hframe. reflexivity.
  - intros fns w1. apply Hframe. reflexivity.
  - intros s w1. apply Hframe. reflexivity.
  - intros bh w1. apply Hframe. reflexivity.
  - intros ah w1. apply Hframe. reflexivity.
  - constructor.
  - apply Hkept, Htruthy.
Qed.

(** X5.  Once the settings are loaded they stay loaded, whatever happens on
    the page afterwards. *)
Theorem settings_stay (es : list event) (w : World) :
  is_Some (page_SETTINGS w) ->
  is_Some (page_SETTINGS (world (fire_all es (mkState w [])))).
Proof.
  assert (Hframe : forall w1 w2,
             page_SETTINGS w2 = page_SETTINGS w1 -> settings_stay_loaded w1 w2).
  { intros w1 w2 H. unfold settings_stay_loaded. rewrite H. auto. }
  assert (Hpre : PreOrder settings_stay_loaded).
  { split.
    - intros w1 H. exact H.
    - intros w1 w2 w3 H12 H23 H. apply H23, H12, H. }
  destruct (lasting_fire_all settings_stay_loaded Hpre) with (es := es)
    (st := mkState w []) as [Hstay _].
  - intros w1 w2 (H & _). apply Hframe, H.
  - intros t h w1. apply Hframe.
    unfold page_HandlerStore_add. destruct (truthy _); reflexivity.
  - intros fn w1. apply Hframe. reflexivity.
  - intros fns w1. apply Hframe. reflexivity.
  - intros s w1 _. simpl. eauto.
  - intros bh w1. apply Hframe. reflexivity.
  - intros ah w1. apply Hframe. reflexivity.
  - constructor.
  - exact Hstay.
Qed.

(** ** The settings document *)

Lemma append_empty_r (s : string) : s +:+ EmptyString = s.
Proof.
  induction s as [| a s IH]; [reflexivity |].
  change (String a (s +:+ EmptyString) = String a s). f_equal. exact IH.
Qed.

Lemma texts_app (l1 l2 : list node) :
  texts (l1 ++ l2) = texts l1 +:+ texts l2.
Proof.
  induction l1 as [| n l1 IH]; simpl; [reflexivity |].
  rewrite IH. clear IH. generalize (text n) as s. intros s.
  induction s as [| a s IHs]; [reflexivity |].
  change (String a (s +:+ (texts l1 +:+ texts l2))
          = String a ((s +:+ texts l1) +:+ texts l2)).
  f_equal. exact IHs.
Qed.

Lemma select_settings_field (name : string)
    (fields : list (string * string)) :
  texts (select_child "settings" name
           (Element "settings" [] (field_element <$> fields)))
  = field_text name fields.
Proof.
  induction fields as [| f fields IH]; [reflexivity |].
  simpl in *. destruct (String.eqb f.1 name); simpl.
  - rewrite append_empty_r. f_equal. exact IH.
  - exact IH.
Qed.

(** X6.  [page_parseSettings] reads each setting as the text of the children
    of [settings] of that name: a setting that the document lacks is the
    empty string, one that it repeats is the texts joined in the order of
    the document, and children of other names are ignored, wherever they
    stand.  Without a document both settings are empty. *)
Theorem parseSettings_fields (fields : list (string * string)) :
  page_parseSettings (Some (settings_document fields))
  = mkSettings (field_text "default_page_id" fields)
      (field_text "error_page_template" fields)
  ∧ page_parseSettings None = mkSettings EmptyString EmptyString.
Proof.
  split; [| reflexivity].
  unfold page_parseSettings, settings_document.
  pose proof (select_settings_field "default_page_id" fields) as H1.
  pose proof (select_settings_field "error_page_template" fields) as H2.
  simpl in *. rewrite !app_nil_r. rewrite H1, H2. reflexivity.
Qed.

(** ** Loading the module, when the settings load *)

(** X7.  When the settings document loads, the module load handler stores
    the parsed settings, registers [page_block] as a block handler, pushes the
    page load handler that expands the document's blocks, registers the app
    load handler with the settings, reports nothing, leaves the page handlers
    alone and passes [null] to its continuation. *)
Theorem onModuleLoad_success (done : option Error -> Prog) (w : World)
    (pool : list (call * (response -> Prog))) (doc : option node) :
  let st1 := state_of (run (page_onModuleLoad done) (mkState w pool)) in
  let settings := page_parseSettings doc in
  exists w' : World,
    deliver (length pool) (succeeded doc) st1
    = run (done None) (mkState w' pool)
    ∧ page_SETTINGS w' = Some settings
    ∧ block_HANDLERS w'
      = block_HANDLERS w ++ [("page_block", page_block_handler)]
    ∧ PAGE_LOAD_HANDLERS w'
      = PAGE_LOAD_HANDLERS w ++ [ExpandDocumentBlocksHandler]
    ∧ APP_LOAD_HANDLERS w'
      = APP_LOAD_HANDLERS w ++ [PageAppLoadHandler (Some settings)]
    ∧ strict_errors w' = strict_errors w
    ∧ page_HANDLERS w' = page_HANDLERS w
    ∧ dom w' = dom w.
Proof.
  simpl. eexists. split.
  - rewrite deliver_last. simpl. reflexivity.
  - repeat split.
Qed.

Lemma bootstrap_calls (url : string) (doc : option node) :
  blank (getIdFromURL url) = true ->
  let st := fire_all [ModuleLoad; Answer 0 (succeeded doc); AppLoad]
              (mkState (initial_world url) []) in
  calls st
  = [ExpandDocumentBlocks (Some (default_page_id (page_parseSettings doc)))]
  ∧ strict_errors (world st) = []
  ∧ effects (world st) = []
  ∧ passed (world st) = [mkResponse None None].
Proof.
  intros Hblank st. subst st.
  rewrite !fire_all_cons.
  unfold fire, deliver, entry.
  cbn -[page_parseSettings]. rewrite Hblank.
  cbn -[page_parseSettings]. repeat split.
Qed.

(** X8.  From a fresh page: the module loads, the settings document arrives,
    the app loads.  When the URL has no page ID, the one page load handler,
    which expands the blocks of the document, has been called with the
    [default_page_id] of the document, nothing has been reported, the
    continuation of the module load handler has been passed [null], and the
    page has not faded in yet. *)
Theorem bootstrap_calls_default_page (url : string)
    (fields : list (string * string)) :
  blank (getIdFromURL url) = true ->
  let st := fire_all
              [ModuleLoad;
               Answer 0 (succeeded (Some (settings_document fields)));
               AppLoad]
              (mkState (initial_world url) []) in
  calls st
  = [ExpandDocumentBlocks (Some (field_text "default_page_id" fields))]
  ∧ strict_errors (world st) = []
  ∧ effects (world st) = []
  ∧ passed (world st) = [mkResponse None None].
Proof.
  intros Hblank.
  pose proof (bootstrap_calls url (Some (settings_document fields)) Hblank)
    as H.
  rewrite (proj1 (parseSettings_fields fields)) in H. exact H.
Qed.

(** ** Setting the page element, when the page handler answers *)


Lemma contents_append_option (c : nat) (x : option node) (w : World) :
  contents c (append c x (empty c w)) = option_list x.
Proof.
  destruct x as [n |]; [apply contents_append_empty |].
  unfold contents, append, empty; simpl.
  rewrite lookup_insert_eq. reflexivity.
Qed.

Lemma setPageElement_calls (containerElement : nat) (id : string)
    (handler : value) (c : call)
    (done : option Error -> option node -> Prog) (w : World)
    (pool : list (call * (response -> Prog))) :
  page_HandlerStore_get (getContentType id) w = handler ->
  truthy handler = true ->
  handler_call handler id = Some c ->
  run (page_setPageElement containerElement id done) (mkState w pool)
  = Returned
      (mkState w
         (pool ++ [(c, fun r => page_setPageElement_loaded containerElement
                                  done (r_error r) (r_value r))])).
Proof.
  intros Hget Htruthy Hcall. unfold page_setPageElement.
  apply (getPageElement_calls _ _ _ _ _ _ Hget Htruthy Hcall).
Qed.


(** X10.  Two pages are set into one container, each by a page handler that
    is called with a callback.  When the first is set and answered before the
    second is set, the container holds the second element alone.  When both
    are set before either answers, the container holds the element of the
    handler that answered last, whichever was set first. *)
Theorem setPageElement_twice (containerElement : nat) (idA idB : string)
    (cA cB : call) (a b : node) (w : World) :
  truthy (page_HandlerStore_get (getContentType idA) w) = true ->
  handler_call (page_HandlerStore_get (getContentType idA) w) idA = Some cA ->
  truthy (page_HandlerStore_get (getContentType idB) w) = true ->
  handler_call (page_HandlerStore_get (getContentType idB) w) idB = Some cB ->
  let set id st := state_of (run (page_setPageElement containerElement id note)
                               st) in
  let answer i x st := state_of (deliver i (succeeded (Some x)) st) in
  contents containerElement
    (world (answer 0 b (set idB (answer 0 a (set idA (mkState w []))))))
  = [b]
  ∧ contents containerElement
      (world (answer 0 b (answer 0 a (set idB (set idA (mkState w []))))))
    = [b]
  ∧ contents containerElement
      (world (answer 0 a (answer 1 b (set idB (set idA (mkState w []))))))
    = [a].
Proof.
  intros HtA HcA HtB HcB set answer. subst set answer. cbv beta.
  rewrite (setPageElement_calls _ idA _ cA note w [] eq_refl HtA HcA).
  cbn [state_of app]. split; [| split].
  - rewrite deliver_only. cbn [run page_setPageElement_loaded r_error r_value
                               succeeded note state_of world pending].
    match goal with
    | |- context [run (page_setPageElement _ idB note) (mkState ?w1 [])] =>
        rewrite (setPageElement_calls _ idB _ cB note w1 [] eq_refl HtB HcB)
    end.
    cbn [state_of app]. rewrite deliver_only.
    cbn [run page_setPageElement_loaded r_error r_value
           succeeded note state_of world pending].
    apply contents_append_empty.
  - rewrite (setPageElement_calls _ idB _ cB note w _ eq_refl HtB HcB).
    cbn [state_of app]. unfold deliver.
    cbn [pending lookup list_lookup delete list_delete world run
           page_setPageElement_loaded r_error r_value succeeded note state_of].
    apply contents_append_empty.
  - rewrite (setPageElement_calls _ idB _ cB note w _ eq_refl HtB HcB).
    cbn [state_of app]. unfold deliver.
    cbn [pending lookup list_lookup delete list_delete world run
           page_setPageElement_loaded r_error r_value succeeded note state_of].
    apply contents_append_empty.
Qed.

(** X11.  The page handler of [id] fails while the settings are not loaded.
    [page_setPageElement] reports its error through [strictError] and then
    throws, reading the error page template of settings that are [null]:
    [done] is not called, and the page is as it was but for the report. *)
Theorem setPageElement_failure_without_settings (containerElement : nat)
    (id : string) (handler : value) (c : call) (E : Error) (x : option node)
    (done : option Error -> option node -> Prog) (w : World)
    (pool : list (call * (response -> Prog))) :
  page_SETTINGS w = None ->
  page_HandlerStore_get (getContentType id) w = handler ->
  truthy handler = true ->
  handler_call handler id = Some c ->
  let st1 := state_of (run (page_setPageElement containerElement id done)
                         (mkState w pool)) in
  deliver (length pool) (mkResponse (Some E) x) st1
  = Thrown "TypeError"
      (mkState (strictError (ReportError (page_element_error E)) w) pool).
Proof.
  intros Hsettings Hget Htruthy Hcall st1. subst st1.
  rewrite (setPageElement_calls _ _ _ _ _ _ _ Hget Htruthy Hcall).
  simpl state_of. rewrite deliver_last. simpl.
  rewrite Hsettings. reflexivity.
Qed.

(** ** The error page element *)




(** ** Expanding a page block *)

Lemma nonblank_Some (id : string) :
  id <> "" -> nonblank (Some id) = Some id.
Proof.
  intros Hid. unfold nonblank, blank.
  apply String.eqb_neq in Hid. rewrite Hid. reflexivity.
Qed.

(** X13.  [page_block] takes the page ID from the text of the element, and
    from the context only when the element has no text.  With either, it
    pushes its page load handler, calls the page handler of that ID, and when
    the handler answers without an error the element holds what it answered
    with, alone, and [done] is passed it. *)
Theorem page_block_sets_page (context : block_Context) (id : string)
    (handler : value) (c : call) (x : option node)
    (done : option Error -> option node -> Prog) (w : World)
    (pool : list (call * (response -> Prog))) :
  id <> "" ->
  (element_text (element context) w = id
   ∨ (element_text (element context) w = "" ∧ getId context = Some id)) ->
  page_HandlerStore_get (getContentType id) w = handler ->
  truthy handler = true ->
  handler_call handler id = Some c ->
  let st1 := state_of (run (page_block context done) (mkState w pool)) in
  let w1 := PageLoadHandlerStore_add (PageBlockHandler context) w in
  let w2 := append (element context) x (empty (element context) w1) in
  calls st1 = pool.*1 ++ [c]
  ∧ world st1 = w1
  ∧ deliver (length pool) (succeeded x) st1
    = run (done None x) (mkState w2 pool)
  ∧ contents (element context) w2 = option_list x.
Proof.
  intros Hid Hsource Hget Htruthy Hcall st1 w1 w2.
  assert (Hrun : st1
                 = mkState w1
                     (pool ++ [(c, fun r =>
                                     page_setPageElement_loaded
                                       (element context) done
                                       (r_error r) (r_value r))])).
  { subst st1. unfold page_block. cbn [run world pending].
    assert (Hwhich : nonblank
                       (js_or (Some (element_text (element context) w1))
                              (getId context)) = Some id).
    { change (element_text (element context) w1)
        with (element_text (element context) w).
      destruct Hsource as [Htext | [Htext Hctx]]; rewrite Htext.
      - unfold js_or, blank. apply String.eqb_neq in Hid as Hid'.
        rewrite Hid'. apply nonblank_Some, Hid.
      - unfold js_or; simpl. rewrite Hctx. apply nonblank_Some, Hid. }
    subst w1. rewrite Hwhich.
    rewrite (setPageElement_calls (element context) id handler c done
               (PageLoadHandlerStore_add (PageBlockHandler context) w) pool
               Hget Htruthy Hcall).
    reflexivity. }
  rewrite Hrun.
  split; [apply calls_snoc |]. split; [reflexivity |].
  split; [rewrite deliver_last; reflexivity |].
  apply contents_append_option.
Qed.

(** X14.  When the element has no text and the context has no page ID,
    [page_block] pushes its page load handler all the same, empties the
    element, calls no page handler and passes [null] to [done]. *)
Theorem page_block_without_id (context : block_Context)
    (done : option Error -> option node -> Prog) (w : World)
    (pool : list (call * (response -> Prog))) :
  element_text (element context) w = "" ->
  blank (getId context) = true ->
  let w1 := empty (element context)
              (PageLoadHandlerStore_add (PageBlockHandler context) w) in
  run (page_block context done) (mkState w pool)
  = run (done None None) (mkState w1 pool)
  ∧ PAGE_LOAD_HANDLERS w1
    = PAGE_LOAD_HANDLERS w ++ [PageBlockHandler context]
  ∧ contents (element context) w1 = [].
Proof.
  intros Htext Hctx w1. split; [| split].
  - unfold page_block. cbn [run world pending].
    change (element_text (element context)
              (PageLoadHandlerStore_add (PageBlockHandler context) w))
      with (element_text (element context) w).
    rewrite Htext. unfold js_or, nonblank; simpl. rewrite Hctx. reflexivity.
  - reflexivity.
  - unfold contents, w1, empty; simpl. rewrite lookup_insert_eq. reflexivity.
Qed.

(** ** The page load handler of a page block *)

(** X15.  The handler that [page_block] pushed is called with a page ID, or
    finds one in its context.  When the page handler answers without an
    error, the element of the block holds what it answered with, alone, and
    the Block module is asked to expand it, with the page ID; what the Block
    module answers decides what [next] is passed. *)
Theorem onPageLoad_success (context : block_Context) (id : option string)
    (s : string) (handler : value) (c : call) (x : option node)
    (next : option Error -> Prog) (w : World)
    (pool : list (call * (response -> Prog))) :
  nonblank (js_or id (getId context)) = Some s ->
  page_HandlerStore_get (getContentType s) w = handler ->
  truthy handler = true ->
  handler_call handler s = Some c ->
  let st1 := state_of (run (page_block_onPageLoad context id next)
                         (mkState w pool)) in
  let st2 := state_of (deliver (length pool) (succeeded x) st1) in
  calls st1 = pool.*1 ++ [c]
  ∧ world st2 = append (element context) x (empty (element context) w)
  ∧ contents (element context) (world st2) = option_list x
  ∧ calls st2 = pool.*1 ++ [ExpandBlock s x]
  ∧ forall r : response,
      deliver (length pool) r st2
      = run (next (r_error r)) (mkState (world st2) pool).
Proof.
  intros Hwhich Hget Htruthy Hcall st1 st2.
  subst st2 st1. unfold page_block_onPageLoad. rewrite Hwhich.
  rewrite (setPageElement_calls _ _ _ _ _ _ _ Hget Htruthy Hcall).
  cbn [state_of]. rewrite deliver_last.
  cbn [run page_setPageElement_loaded page_block_mounted r_error r_value
         succeeded state_of world pending].
  split; [apply calls_snoc |]. split; [reflexivity |].
  split; [apply contents_append_option |].
  split; [apply calls_snoc |].
  intros r. apply deliver_last.
Qed.

(** X16.  When the page handler fails, the handler that [page_block] pushed
    does not ask the Block module for anything: once the error page is in
    the element, or could not be loaded, [next] is passed the error that
    [page_setPageElement] passes on. *)
Theorem onPageLoad_failure (context : block_Context) (id : option string)
    (s : string) (handler : value) (c : call) (E E' : Error)
    (x y : option node) (T : node) (settings : Settings)
    (next : option Error -> Prog) (w : World)
    (pool : list (call * (response -> Prog))) :
  page_SETTINGS w = Some settings ->
  nonblank (js_or id (getId context)) = Some s ->
  page_HandlerStore_get (getContentType s) w = handler ->
  truthy handler = true ->
  handler_call handler s = Some c ->
  let st1 := state_of (run (page_block_onPageLoad context id next)
                         (mkState w pool)) in
  let st2 := state_of (deliver (length pool) (mkResponse (Some E) x) st1) in
  let error := page_element_error E in
  let w2 := strictError (ReportError error) w in
  let shown := replaceWith "page_error_block" (message error) T in
  calls st2 = pool.*1 ++ [GetTemplate (error_page_template settings)]
  ∧ deliver (length pool) (succeeded (Some T)) st2
    = run (next (Some error))
        (mkState (append (element context) (Some shown)
                    (empty (element context) w2)) pool)
  ∧ deliver (length pool) (mkResponse (Some E') y) st2
    = run (next (Some (error_page_error E'))) (mkState w2 pool).
Proof.
  intros Hsettings Hwhich Hget Htruthy Hcall st1 st2 error w2 shown.
  subst st2 st1. unfold page_block_onPageLoad. rewrite Hwhich.
  rewrite (setPageElement_calls _ _ _ _ _ _ _ Hget Htruthy Hcall).
  cbn [state_of]. rewrite deliver_last.
  unfold page_setPageElement_loaded, page_getErrorPageElement.
  cbn [r_error r_value run world pending].
  change (page_SETTINGS (strictError (ReportError (page_element_error E)) w))
    with (page_SETTINGS w).
  rewrite Hsettings. cbn [run state_of world pending].
  split; [apply calls_snoc |].
  split; rewrite deliver_last; reflexivity.
Qed.

(** ** The hashchange listener *)

(** X17.  On [hashchange] the page load handlers are executed with the page
    ID of the new URL, or with none when the URL has none: the default page
    of the settings is not used.  With handlers that call out, each is called
    with it; when the last one has answered, with or without an error,
    [page_scroll] runs on the URL, and nothing else: the page does not fade
    in.  With no handler [page_scroll] runs at once. *)
Theorem onHashChange_scrolls (url : string) (fns : list reaction)
    (cs : list call) (w : World) (pool : list (call * (response -> Prog))) :
  let id := getIdFromURL url in
  let w1 := set_location url w in
  let j := length (joins w) in
  let w0 := set_joins (joins w ++ [mkJoin (length fns) 0 []]) w1 in
  let st0 := fire (HashChange url) (mkState w pool) in
  PAGE_LOAD_HANDLERS w = fns ->
  mapM (outgoing id) fns = Some cs ->
  (fns = [] -> st0 = mkState (page_scroll url w1) pool)
  ∧ (fns <> [] ->
     calls st0 = pool.*1 ++ cs
     ∧ forall answers : list (nat * response),
         in_turn (length pool) (length fns) answers ->
         (length answers < length fns ->
          effects (world (deliver_all answers st0)) = effects w)
         ∧ (length answers = length fns ->
            deliver_all answers st0
            = mkState (page_scroll url (completes j answers w0)) pool)).
Proof.
  intros id w1 j w0 st0 Hfns Hcs.
  assert (Hrun : st0
                 = state_of (run (PageLoadHandlerStore_execute id
                                    (Update (page_scroll url) Return))
                               (mkState w1 pool))).
  { reflexivity. }
  rewrite Hrun. clear Hrun st0.
  assert (Hfns1 : PAGE_LOAD_HANDLERS w1 = fns) by exact Hfns.
  split.
  - intros Hnil.
    rewrite (execute_nothing id (Update (page_scroll url) Return)
               (mkState w1 pool)); [reflexivity |].
    rewrite <- Hnil. exact Hfns1.
  - intros Hne. split.
    + rewrite (execute_outgoing _ _ _ _ _ _ Hfns1 Hne Hcs).
      unfold calls, waiting; simpl. rewrite fmap_app, <- list_fmap_compose.
      f_equal. apply list_fmap_id.
    + intros answers Hturn.
      destruct (execute_joins _ _ _ (Update (page_scroll url) Return) _ _ _
                  Hfns1 Hne Hcs Hturn) as (Hbefore & Hafter & _).
      split.
      * intros Hlt. rewrite (Hbefore Hlt). simpl.
        rewrite effects_completes. reflexivity.
      * intros Heq. rewrite (Hafter Heq). reflexivity.
Qed.

(** ** Adding page load handlers *)

Lemma fire_all_adds (ns : list nat) :
  forall st : State,
    PAGE_LOAD_HANDLERS (world (fire_all (AddPageLoadHandler <$> ns) st))
    = PAGE_LOAD_HANDLERS (world st) ++ (ForeignHandler <$> ns)
    ∧ pending (fire_all (AddPageLoadHandler <$> ns) st) = pending st.
Proof.
  induction ns as [| n ns IH]; intros st.
  - simpl. rewrite app_nil_r. auto.
  - rewrite fmap_cons, fire_all_cons.
    destruct (IH (fire (AddPageLoadHandler n) st)) as [Hh Hp].
    rewrite Hh, Hp. simpl. rewrite <- app_assoc. auto.
Qed.

(** X18.  Handlers added one at a time with [add] are called by [execute] in
    the order they were added, after the handlers the store already had, and
    a handler that was added twice is called twice. *)
Theorem added_handlers_are_called_in_order (ns : list nat)
    (id : option string) (cs : list call) (st : State) :
  mapM (outgoing id) (PAGE_LOAD_HANDLERS (world st)) = Some cs ->
  calls (fire_all ((AddPageLoadHandler <$> ns)
                   ++ [ExecutePageLoadHandlers id]) st)
  = calls st ++ cs ++ ((fun n => CallForeignHandler n id) <$> ns).
Proof.
  intros Hcs. rewrite fire_all_app.
  destruct (fire_all_adds ns st) as [Hh Hp].
  set (st1 := fire_all (AddPageLoadHandler <$> ns) st) in *.
  rewrite fire_all_cons.
  change (calls (state_of (run (PageLoadHandlerStore_execute id Return) st1))
          = calls st ++ cs ++ ((fun n => CallForeignHandler n id) <$> ns)).
  assert (Hall : mapM (outgoing id) (PAGE_LOAD_HANDLERS (world st1))
                 = Some (cs ++ ((fun n => CallForeignHandler n id) <$> ns))).
  { rewrite Hh. apply mapM_Some. apply mapM_Some in Hcs.
    apply Forall2_app; [exact Hcs |].
    apply Forall2_fmap. apply Forall_Forall2_diag.
    apply Forall_forall. reflexivity. }
  destruct (PAGE_LOAD_HANDLERS (world st1)) as [| fn fns] eqn:Hfns.
  - rewrite execute_nothing by exact Hfns. simpl.
    injection Hall as <-. unfold calls. rewrite Hp, app_nil_r. reflexivity.
  - destruct st1 as [w1 pool1]. simpl in Hfns, Hp.
    rewrite (execute_outgoing _ _ _ _ _ _ Hfns ltac:(discriminate) Hall).
    unfold calls, waiting; simpl. rewrite fmap_app, <- list_fmap_compose.
    rewrite Hp. f_equal. apply list_fmap_id.
Qed.

(** ** No exception once the settings are loaded *)


















(** ** Setting the page element, with a handler that is not called *)

(** X20.  A page type whose registered handler is a falsy value (the empty
    template name, [0], [false], [null]) is treated like a type without a
    handler: [page_setPageElement] empties the container, reports nothing,
    calls nothing and passes [(null, null)] to [done]. *)
Theorem setPageElement_falsy_handler (containerElement : nat) (id : string)
    (done : option Error -> option node -> Prog) (st : State) :
  truthy (page_HandlerStore_get (getContentType id) (world st)) = false ->
  run (page_setPageElement containerElement id done) st
  = run (done None None)
      (mkState (empty containerElement (world st)) (pending st))
  ∧ strict_errors (empty containerElement (world st))
    = strict_errors (world st).
Proof.
  intros Hfalsy. split; [| reflexivity].
  unfold page_setPageElement, page_getPageElement. cbn [run].
  rewrite Hfalsy. reflexivity.
Qed.

(** X21.  A page type whose registered handler is truthy but neither a
    function nor a string (a number, [true], an object): while the settings
    are loaded, [page_setPageElement] reports the invalid-handler error, then
    its own error made from it, and asks for the error page template, all
    before it returns.  When the template loads, the container holds it with
    the message in its error blocks, and [done] is passed the second
    error. *)
Theorem setPageElement_invalid_handler (containerElement : nat) (id : string)
    (handler : value) (settings : Settings) (T : node)
    (done : option Error -> option node -> Prog) (w : World)
    (pool : list (call * (response -> Prog))) :
  page_SETTINGS w = Some settings ->
  page_HandlerStore_get (getContentType id) w = handler ->
  truthy handler = true ->
  handler_call handler id = None ->
  let st1 := state_of (run (page_setPageElement containerElement id done)
                         (mkState w pool)) in
  let error := page_element_error invalid_handler_error in
  let w1 := strictError (ReportError error)
              (strictError (ReportError invalid_handler_error) w) in
  let shown := replaceWith "page_error_block" (message error) T in
  let w2 := append containerElement (Some shown)
              (empty containerElement w1) in
  world st1 = w1
  ∧ calls st1 = pool.*1 ++ [GetTemplate (error_page_template settings)]
  ∧ deliver (length pool) (succeeded (Some T)) st1
    = run (done (Some error) None) (mkState w2 pool)
  ∧ contents containerElement w2 = [shown]
  ∧ includes (message invalid_handler_error) (message error) = true.
Proof.
  intros Hsettings Hget Htruthy Hcall st1 error w1 shown w2.
  assert (Hrun : st1
                 = mkState w1
                     (pool ++ [(GetTemplate (error_page_template settings),
                                fun r =>
                                  match r_error r with
                                  | Some errorPageError =>
                                      done (Some (error_page_error
                                                    errorPageError)) None
                                  | None =>
                                      Update (empty containerElement)
                                        (Update
                                           (append containerElement
                                              (replaceWith "page_error_block"
                                                 (message error) <$> r_value r))
                                           (done (Some error) None))
                                  end)])).
  { subst st1. unfold page_setPageElement, page_getPageElement.
    cbn [run world]. rewrite Hget, Htruthy.
    destruct handler; simpl in Hcall; try discriminate;
      unfold page_applyPageHandler, page_setPageElement_loaded,
        page_getErrorPageElement;
      cbn [run world pending page_SETTINGS strictError set_strict_errors];
      rewrite Hsettings; reflexivity. }
  rewrite Hrun.
  split; [reflexivity |]. split; [apply calls_snoc |].
  split; [rewrite deliver_last; reflexivity |].
  split; [apply contents_append_empty |].
  apply includes_element_error.
Qed.

End Page.

(** * Examples *)

Example parseSettings_example :
  page_parseSettings (Some example_document) = example_settings.
Proof. reflexivity. Qed.

(** ** C1 *)



(** ** C2 *)

Example addHandlers_example :
  let w := PageLoadHandlerStore_addHandlers [ForeignHandler 1]
             (initial_world "http://example.org/") in
  PAGE_LOAD_HANDLERS w = []
  ∧ Array_prototype w = [PushedStoreArray; PushedArray [ForeignHandler 1]]
  ∧ run (PageLoadHandlerStore_execute before_colon (Some "home")
           (note None None)) (mkState w [])
    = Returned (mkState (set_passed [mkResponse None None] w) []).
Proof. repeat split. Qed.

(** ** C3 *)


(** ** C4 *)



Example failure_is_not_shown :
  let st1 := state_of (run (page_setPageElement before_colon 0 "static:intro"
                              note) (mkState example_world [])) in
  let st2 := state_of (deliver 0 (failed "boom") st1) in
  let st3 := state_of (deliver 0 (succeeded (Some plain_template)) st2) in
  contents 0 (world st3) = [plain_template]
  ∧ includes "boom" (text plain_template) = false.
Proof. split; reflexivity. Qed.

Example failure_is_not_passed_with_block :
  ~ failure_is_shown_and_passed before_colon 0 "static:intro"
      (mkError "boom") error_template example_world.
Proof.
  intros (_ & _ & Hpassed). vm_compute in Hpassed. discriminate.
Qed.

(** ** C5 *)


(** ** C6 *)

Lemma setPageElement_error_page_failure_example :
  let w := append 0 (Some plain_template) example_world in
  let st1 := state_of (run (page_setPageElement before_colon 0 "static:intro"
                              note) (mkState w [])) in
  let st2 := state_of (deliver 0 (failed "boom") st1) in
  let st3 := state_of (deliver 0 (failed "404") st2) in
  passed (world st3)
  = [mkResponse (Some (error_page_error (mkError "404"))) None]
  ∧ calls st3 = []
  ∧ contents 0 (world st3) = [plain_template].
Proof.
  intros w st1 st2 st3.
  destruct (setPageElement_error_page_failure before_colon 0 "static:intro"
              (VFunction 0) (CallPageHandler 0 "static:intro")
              (mkError "boom") (mkError "404") None None example_settings
              note w [] eq_refl eq_refl eq_refl eq_refl) as [Hrun _].
  subst st3 st2 st1. unfold failed. simpl length in Hrun.
  rewrite Hrun. repeat split.
Defined.

(** ** C8 *)

(** The settings name [home] and the URL has no page ID: the page load
    handlers are called with [home], and the page fades in and scrolls when
    the last one has answered. *)
Lemma onAppLoad_example :
  let w := PageLoadHandlerStore_add ExpandDocumentBlocksHandler
             example_world in
  let st0 := state_of (run (page_onAppLoad before_colon after_hash no_fragment
                              (Some example_settings) Return)
                         (mkState w [])) in
  after_hash (location w) = None
  ∧ calls st0 = [ExpandDocumentBlocks (Some "home")]
  ∧ effects (world st0) = []
  ∧ effects (world (deliver_all [(0, failed "no blocks")] st0))
    = [FadeOut "#overlay" 250; AnimateScrollTo "top"].
Proof.
  intros w st0. split; [reflexivity |].
  destruct (onAppLoad_loads_initial_page before_colon after_hash no_fragment
              example_settings Return [ExpandDocumentBlocksHandler]
              [ExpandDocumentBlocks (Some "home")] w [] eq_refl eq_refl)
    as (_ & _ & H).
  destruct (H ltac:(discriminate)) as [Hcalls Hanswers].
  split; [exact Hcalls |]. split.
  - destruct (Hanswers []) as [Hbefore _]; [exact I |].
    apply Hbefore. simpl. lia.
  - destruct (Hanswers [(0, failed "no blocks")]) as [_ Hafter].
    + simpl. repeat split; lia.
    + subst st0. rewrite Hafter by reflexivity. reflexivity.
Defined.

(** ** C9 *)

Lemma applyPageHandler_invalid_example :
  run (page_applyPageHandler (VNumber 3) "static:intro" note)
    (mkState example_world [])
  = Returned
      (mkState
         (set_passed [mkResponse (Some invalid_handler_error) None]
            (strictError (ReportError invalid_handler_error) example_world))
         []).
Proof.
  rewrite applyPageHandler_invalid by discriminate. reflexivity.
Defined.

(** ** C10 *)

(** The module is loaded, a handler is registered for [static], a block
    without a page ID is expanded in the element 5, and another module adds
    a handler of its own. *)
Lemma page_block_handlers_example :
  let context := mkContext 5 None in
  let st := fire_all before_colon after_hash no_fragment
              ([ModuleLoad; Answer 0 (succeeded (Some example_document));
                RegisterPageHandler "static" (VFunction 0)]
               ++ ExpandPageBlock context :: [AddPageLoadHandler 1])
              (mkState (initial_world "http://example.org/") []) in
  exists i : nat,
    PAGE_LOAD_HANDLERS (world st) !! i = Some (PageBlockHandler context)
    ∧ contents 5
        (world (fire before_colon after_hash no_fragment
                  (Answer (length (pending st) + i)
                     (succeeded (Some (Text "hi"))))
                  (fire before_colon after_hash no_fragment
                     (HashChange "http://example.org/#static:intro") st)))
      = [Text "hi"]
    ∧ contents 5
        (world (fire before_colon after_hash no_fragment
                  (HashChange "http://example.org/") st))
      = [].
Proof.
  intros context st.
  destruct (page_block_handlers_are_kept before_colon after_hash no_fragment
              context
              [ModuleLoad; Answer 0 (succeeded (Some example_document));
               RegisterPageHandler "static" (VFunction 0)]
              [AddPageLoadHandler 1] (initial_world "http://example.org/"))
    as (_ & _ & i & Hi & Hmount & Hempty).
  exists i. split; [exact Hi |]. split.
  - apply (Hmount "http://example.org/#static:intro" "static:intro"
             (VFunction 0) (CallPageHandler 0 "static:intro") (Text "hi"));
      first [discriminate | vm_compute; reflexivity].
  - apply Hempty; vm_compute; eauto.
Defined.

(** * More examples *)

Lemma add_then_get_example :
  let w := example_world in
  let w' := page_HandlerStore_add "blog" (VString "blog.html") w in
  page_HandlerStore_get "blog" w' = VString "blog.html"
  ∧ page_HandlerStore_get "static" w' = VFunction 0
  ∧ strict_errors w' = strict_errors w.
Proof.
  intros w w'.
  destruct (add_then_get "blog" "static" (VString "blog.html") w eq_refl)
    as (Hnew & Hother & Hquiet).
  split; [exact Hnew |]. split; [| exact Hquiet].
  subst w'. rewrite Hother by discriminate. reflexivity.
Defined.

Lemma addHandlers_registers_all_example :
  let w' := page_HandlerStore_addHandlers
              [("static", VFunction 0); ("blog", VString "blog.html")]
              (initial_world "http://example.org/") in
  page_HandlerStore_get "static" w' = VFunction 0
  ∧ page_HandlerStore_get "blog" w' = VString "blog.html"
  ∧ page_HandlerStore_get "news" w' = VUndefined
  ∧ strict_errors w' = [].
Proof.
  intros w'.
  destruct (addHandlers_registers_all
              [("static", VFunction 0); ("blog", VString "blog.html")]
              (initial_world "http://example.org/"))
    as (Hall & Hother & Hquiet).
  - apply (bool_decide_unpack _). vm_compute. reflexivity.
  - repeat constructor.
  - split; [apply Hall; set_solver |]. split; [apply Hall; set_solver |].
    split; [| exact Hquiet].
    subst w'. rewrite Hother; [reflexivity |].
    apply (bool_decide_unpack _). vm_compute. reflexivity.
Defined.

Lemma addHandlers_is_safe_example :
  let w' := page_HandlerStore_addHandlers
              [("static", VFunction 5); ("blog", VFunction 6);
               ("static", VFunction 7)] example_world in
  page_HandlerStore_get "static" w' = VFunction 0
  ∧ page_HandlerStore_get "news" w' = VUndefined.
Proof.
  intros w'.
  destruct (addHandlers_is_safe
              [("static", VFunction 5); ("blog", VFunction 6);
               ("static", VFunction 7)] example_world)
    as (Hkeep & Hother & _).
  split.
  - subst w'. rewrite Hkeep by reflexivity. reflexivity.
  - subst w'. rewrite Hother; [reflexivity |].
    apply (bool_decide_unpack _). vm_compute. reflexivity.
Defined.

Lemma registered_handler_is_permanent_example :
  page_HandlerStore_get "static"
    (world (fire_all before_colon after_hash no_fragment
              [RegisterPageHandler "static" (VFunction 9);
               RegisterPageHandlers [("static", VString "static.html")];
               SetPageElement 0 "static:intro";
               Answer 0 (failed "boom");
               HashChange "http://example.org/#static:intro"]
              (mkState example_world [])))
  = VFunction 0.
Proof.
  rewrite registered_handler_is_permanent by reflexivity. reflexivity.
Defined.

Lemma settings_stay_example :
  is_Some
    (page_SETTINGS
       (world (fire_all before_colon after_hash no_fragment
                 [ModuleLoad; Answer 0 (failed "Not Found");
                  SetPageElement 0 "static:intro"]
                 (mkState example_world [])))).
Proof.
  apply settings_stay. vm_compute. eauto.
Defined.

Lemma bootstrap_example :
  calls (fire_all before_colon after_hash no_fragment
           [ModuleLoad;
            Answer 0 (succeeded
                        (Some (settings_document
                                 [("error_page_template", "error.tpl");
                                  ("default_page_id", "home")])));
            AppLoad]
           (mkState (initial_world "http://example.org/") []))
  = [ExpandDocumentBlocks (Some "home")].
Proof.
  destruct (bootstrap_calls_default_page before_colon after_hash no_fragment
              "http://example.org/"
              [("error_page_template", "error.tpl");
               ("default_page_id", "home")] eq_refl) as [Hcalls _].
  exact Hcalls.
Defined.


Lemma setPageElement_twice_example :
  let set id st := state_of (run (page_setPageElement before_colon 0 id note)
                               st) in
  let answer i x st := state_of (deliver i (succeeded (Some x)) st) in
  contents 0
    (world (answer 0 (Text "a")
              (answer 1 (Text "b")
                 (set "static:b" (set "static:a" (mkState example_world []))))))
  = [Text "a"].
Proof.
  intros set answer.
  destruct (setPageElement_twice before_colon 0 "static:a" "static:b"
              (CallPageHandler 0 "static:a") (CallPageHandler 0 "static:b")
              (Text "a") (Text "b") example_world
              eq_refl eq_refl eq_refl eq_refl) as (_ & _ & Hrace).
  exact Hrace.
Defined.

Lemma setPageElement_failure_without_settings_example :
  let w := page_HandlerStore_add "static" (VFunction 0)
             (initial_world "http://example.org/") in
  let st1 := state_of (run (page_setPageElement before_colon 0 "static:intro"
                              note) (mkState w [])) in
  deliver 0 (failed "boom") st1
  = Thrown "TypeError"
      (mkState (strictError
                  (ReportError (page_element_error (mkError "boom"))) w) []).
Proof.
  intros w st1.
  exact (setPageElement_failure_without_settings before_colon 0
           "static:intro" (VFunction 0) (CallPageHandler 0 "static:intro")
           (mkError "boom") None note w [] eq_refl eq_refl eq_refl eq_refl).
Defined.


(** A block whose element holds the text [static:intro], in a context whose
    page ID is [static:other]: the text is used. *)
Lemma page_block_sets_page_example :
  let context := mkContext 3 (Some "static:other") in
  let hi := Element "div" [] [Text "hi"] in
  let w := append 3 (Some (Text "static:intro")) example_world in
  let st1 := state_of (run (page_block before_colon context note)
                         (mkState w [])) in
  let st2 := state_of (deliver 0 (succeeded (Some hi)) st1) in
  calls st1 = [CallPageHandler 0 "static:intro"]
  ∧ PAGE_LOAD_HANDLERS (world st1) = [PageBlockHandler context]
  ∧ contents 3 (world st2) = [hi]
  ∧ passed (world st2) = [mkResponse None (Some hi)].
Proof.
  intros context hi w st1 st2.
  destruct (page_block_sets_page before_colon context "static:intro"
              (VFunction 0) (CallPageHandler 0 "static:intro") (Some hi)
              note w [] ltac:(discriminate) (or_introl eq_refl)
              eq_refl eq_refl eq_refl)
    as (Hcalls & Hworld & Hrun & _).
  split; [exact Hcalls |]. subst st2 st1.
  split; [rewrite Hworld; reflexivity |].
  simpl length in Hrun. rewrite Hrun. split; reflexivity.
Defined.

Lemma page_block_without_id_example :
  let context := mkContext 3 None in
  run (page_block before_colon context note) (mkState example_world [])
  = Returned
      (mkState
         (set_passed [mkResponse None None]
            (empty 3 (PageLoadHandlerStore_add (PageBlockHandler context)
                        example_world))) []).
Proof.
  intros context.
  destruct (page_block_without_id before_colon context note example_world []
              eq_refl eq_refl) as [Hrun _].
  rewrite Hrun. reflexivity.
Defined.

(** The handler of a block with the page ID [static:intro] in its context,
    called without a page ID. *)
Lemma onPageLoad_success_example :
  let context := mkContext 3 (Some "static:intro") in
  let hi := Element "div" [] [Text "hi"] in
  let st1 := state_of (run (page_block_onPageLoad before_colon context None
                              note_error) (mkState example_world [])) in
  let st2 := state_of (deliver 0 (succeeded (Some hi)) st1) in
  let st3 := state_of (deliver 0 (succeeded None) st2) in
  calls st1 = [CallPageHandler 0 "static:intro"]
  ∧ calls st2 = [ExpandBlock "static:intro" (Some hi)]
  ∧ contents 3 (world st3) = [hi]
  ∧ passed (world st3) = [mkResponse None None].
Proof.
  intros context hi st1 st2 st3.
  destruct (onPageLoad_success before_colon context None "static:intro"
              (VFunction 0) (CallPageHandler 0 "static:intro") (Some hi)
              note_error example_world [] eq_refl eq_refl eq_refl eq_refl)
    as (Hcalls1 & _ & _ & Hcalls2 & Hnext).
  split; [exact Hcalls1 |]. split; [exact Hcalls2 |].
  subst st3 st2 st1. simpl length in Hnext. rewrite Hnext.
  split; reflexivity.
Defined.

Lemma onPageLoad_failure_example :
  let context := mkContext 3 (Some "static:intro") in
  let st1 := state_of (run (page_block_onPageLoad before_colon context None
                              note_error) (mkState example_world [])) in
  let st2 := state_of (deliver 0 (failed "boom") st1) in
  let st3 := state_of (deliver 0 (succeeded (Some error_template)) st2) in
  calls st2 = [GetTemplate "error.tpl"]
  ∧ calls st3 = []
  ∧ passed (world st3)
    = [mkResponse (Some (page_element_error (mkError "boom"))) None].
Proof.
  intros context st1 st2 st3.
  destruct (onPageLoad_failure before_colon context None "static:intro"
              (VFunction 0) (CallPageHandler 0 "static:intro")
              (mkError "boom") (mkError "404") None None error_template
              example_settings note_error example_world []
              eq_refl eq_refl eq_refl eq_refl eq_refl)
    as (Hcalls & Hrun & _).
  split; [exact Hcalls |].
  subst st3 st2 st1. unfold failed in *. simpl length in Hrun. rewrite Hrun.
  split; reflexivity.
Defined.

(** The URL changes to one without a page ID: the handler is called with no
    ID, and when it has answered the page scrolls and does not fade. *)
Lemma onHashChange_example :
  let w := PageLoadHandlerStore_add ExpandDocumentBlocksHandler
             example_world in
  let st0 := fire before_colon after_hash no_fragment
               (HashChange "http://example.org/") (mkState w []) in
  calls st0 = [ExpandDocumentBlocks None]
  ∧ effects (world (deliver_all [(0, succeeded None)] st0))
    = [AnimateScrollTo "top"].
Proof.
  intros w st0.
  destruct (onHashChange_scrolls before_colon after_hash no_fragment
              "http://example.org/" [ExpandDocumentBlocksHandler]
              [ExpandDocumentBlocks None] w [] eq_refl eq_refl) as [_ H].
  destruct (H ltac:(discriminate)) as [Hcalls Hanswers].
  split; [exact Hcalls |].
  destruct (Hanswers [(0, succeeded None)]) as [_ Hafter].
  - simpl. repeat split; lia.
  - subst st0. rewrite Hafter by reflexivity. reflexivity.
Defined.

Lemma added_handlers_example :
  calls (fire_all before_colon after_hash no_fragment
           ((AddPageLoadHandler <$> [1; 2; 1])
            ++ [ExecutePageLoadHandlers (Some "home")])
           (mkState (initial_world "http://example.org/") []))
  = [CallForeignHandler 1 (Some "home"); CallForeignHandler 2 (Some "home");
     CallForeignHandler 1 (Some "home")].
Proof.
  rewrite (added_handlers_are_called_in_order before_colon after_hash
             no_fragment [1; 2; 1] (Some "home") []
             (mkState (initial_world "http://example.org/") []) eq_refl).
  reflexivity.
Defined.


Lemma setPageElement_falsy_handler_example :
  let w := page_HandlerStore_add "draft" (VString "")
             (append 0 (Some plain_template) example_world) in
  page_HANDLERS w !! "draft" = Some (VString "")
  ∧ run (page_setPageElement before_colon 0 "draft:1" note) (mkState w [])
    = Returned (mkState (set_passed [mkResponse None None] (empty 0 w)) []).
Proof.
  intros w. split; [reflexivity |].
  destruct (setPageElement_falsy_handler before_colon 0 "draft:1" note
              (mkState w []) eq_refl) as [Hrun _].
  rewrite Hrun. reflexivity.
Defined.

Lemma setPageElement_invalid_handler_example :
  let w := page_HandlerStore_add "odd" (VNumber 3) example_world in
  let st1 := state_of (run (page_setPageElement before_colon 0 "odd:1" note)
                         (mkState w [])) in
  let st2 := state_of (deliver 0 (succeeded (Some error_template)) st1) in
  length (strict_errors (world st1)) = 2
  ∧ calls st1 = [GetTemplate "error.tpl"]
  ∧ passed (world st2)
    = [mkResponse (Some (page_element_error invalid_handler_error)) None].
Proof.
  intros w st1 st2.
  destruct (setPageElement_invalid_handler before_colon 0 "odd:1" (VNumber 3)
              example_settings error_template note w []
              eq_refl eq_refl eq_refl eq_refl)
    as (Hworld & Hcalls & Hrun & _).
  subst st2 st1.
  split; [rewrite Hworld; reflexivity |]. split; [exact Hcalls |].
  simpl length in Hrun. rewrite Hrun. reflexivity.
Defined.
